(** * Undo-Repository: offline cache manager (static/sw.js) and
      swipe tab navigation (static/swipe.js)

    A shallow embedding of the two browser scripts, and the properties of
    the written specification stated and proved over it.

    The scripts talk to the browser through a handful of platform calls
    (fetch, the Cache API, the service-worker lifecycle, the URL parser,
    Element.closest).  Those calls are modelled here with the behaviour
    their standards document; the code of the two scripts is transcribed
    on top of that model, function by function. *)

From Stdlib Require Import ZArith List Ascii String Bool Lia Reals Lra.
From stdpp Require Import gmap strings list fin_maps.

Local Open Scope string_scope.
Local Open Scope list_scope.
Local Open Scope Z_scope.

(** ** Part 1: static/sw.js *)

Module SW.

(** *** Platform model: requests, responses, network, Cache API *)

(** A response: the HTTP status and the body.  The handlers of sw.js never
    look inside a response; the status only matters to Cache.addAll. *)
Record Response := { status : Z; body : string }.

(** A request: URL, method and mode.  URLs are kept as the script writes
    them (origin-relative paths such as "/static/style.css"). *)
Record Request := { url : string; method : string; mode : string }.

(** What the platform does with a request given only a URL string
    (Cache.addAll(urls), caches.match(url)): a GET request. *)
Definition request_of_url (u : string) : Request :=
  {| url := u; method := "GET"; mode := "cors" |}.

(** fetch(req) either rejects (offline, DNS failure, aborted...) or resolves
    with a response, whatever its HTTP status is. *)
Inductive FetchResult :=
| NetworkError
| NetworkResponse (r : Response).

Definition Network := Request -> FetchResult.

(** CacheStorage: the named caches of the origin, in creation order.  A
    cache maps the URL of a GET request to the stored response. *)
Definition CacheStorage := list (string * gmap string Response).

(** Observable actions, in the order in which they take place. *)
Inductive Event :=
| EvWaitUntil
| EvSkipWaiting
| EvRespondWith
| EvCachesOpen (name : string)
| EvCachesMatch (u : string)
| EvFetch (req : Request)
| EvCachePut (name u : string)
| EvLifetimeSettled (ok : bool).

Record World := { storage : CacheStorage; trace : list Event }.

(** A promise is run by the event loop against the network and the
    current world; it settles fulfilled with a value or rejected. *)
Inductive Settled (A : Type) :=
| Fulfilled (a : A)
| Rejected (reason : string).
Arguments Fulfilled {A} a.
Arguments Rejected {A} reason.

Definition Promise (A : Type) := Network -> World -> Settled A * World.

Definition resolve {A} (a : A) : Promise A := fun _ w => (Fulfilled a, w).

(** p.then(f) *)
Definition then_ {A B} (p : Promise A) (f : A -> Promise B) : Promise B :=
  fun net w =>
    match p net w with
    | (Fulfilled a, w') => f a net w'
    | (Rejected e, w') => (Rejected e, w')
    end.

(** p.catch(h) *)
Definition catch_ {A} (p : Promise A) (h : string -> Promise A) : Promise A :=
  fun net w =>
    match p net w with
    | (Fulfilled a, w') => (Fulfilled a, w')
    | (Rejected e, w') => h e net w'
    end.

Definition log (es : list Event) (w : World) : World :=
  {| storage := storage w; trace := trace w ++ es |}.

(** fetch(req) *)
Definition fetch (req : Request) : Promise Response :=
  fun net w =>
    match net req with
    | NetworkResponse r => (Fulfilled r, log [EvFetch req] w)
    | NetworkError => (Rejected "TypeError", log [EvFetch req] w)
    end.

(** A promise of a response, as a promise of a value that may be
    undefined: the two branches of the fetch listener answer with either. *)
Definition defined (p : Promise Response) : Promise (option Response) :=
  then_ p (fun r => resolve (Some r)).

(** The entries of the cache called [name]; no entries if there is no
    such cache. *)
Fixpoint cache_of (name : string) (cs : CacheStorage) : gmap string Response :=
  match cs with
  | [] => ∅
  | (n, c) :: rest => if String.eqb n name then c else cache_of name rest
  end.

Fixpoint has_cache (name : string) (cs : CacheStorage) : bool :=
  match cs with
  | [] => false
  | (n, _) :: rest => String.eqb n name || has_cache name rest
  end.

Fixpoint update_cache (name : string)
    (f : gmap string Response -> gmap string Response)
    (cs : CacheStorage) : CacheStorage :=
  match cs with
  | [] => []
  | (n, c) :: rest =>
      if String.eqb n name then (n, f c) :: rest
      else (n, c) :: update_cache name f rest
  end.

(** The storage once the cache called [name] is open: the cache is
    created, empty, when it does not exist yet. *)
Definition open_cache (name : string) (cs : CacheStorage) : CacheStorage :=
  if has_cache name cs then cs else cs ++ [(name, ∅)].

(** A platform call that starts an operation.  The call is made, and
    can be observed, where the listener evaluates it; the promise it
    returns settles later, when the event loop runs it. *)
Record Started (A : Type) := { called : list Event; promise : Promise A }.
Arguments called {A} _.
Arguments promise {A} _.

(** caches.open(name): the call, and the promise of the cache, which is
    created when it does not exist.  The handle of a cache is its name. *)
Definition caches_open (name : string) : Started string :=
  {| called := [EvCachesOpen name];
     promise := fun _ w =>
       (Fulfilled name,
        {| storage := open_cache name (storage w); trace := trace w |}) |}.

(** op.then(f), chained on the promise of a started operation. *)
Definition then_started {A B} (op : Started A) (f : A -> Promise B) : Started B :=
  {| called := called op; promise := then_ (promise op) f |}.

(** Query of the whole storage: the first cache, in creation order, with
    an entry for the request.  Only GET requests match. *)
Fixpoint storage_match (cs : CacheStorage) (req : Request) : option Response :=
  match cs with
  | [] => None
  | (_, c) :: rest =>
      match (if String.eqb (method req) "GET" then c !! url req else None) with
      | Some r => Some r
      | None => storage_match rest req
      end
  end.

(** caches.match(req): resolves with the response, or with undefined
    ([None]) when nothing matches.  It never rejects. *)
Definition caches_match (req : Request) : Promise (option Response) :=
  fun _ w => (Fulfilled (storage_match (storage w) req), log [EvCachesMatch (url req)] w).

(** Cache.addAll accepts a response only with an ok status (200..299)
    other than 206. *)
Definition addAll_ok (r : Response) : bool :=
  (200 <=? status r) && (status r <=? 299) && negb (status r =? 206).

(** The batch of fetches of Cache.addAll: all the entries, or nothing as
    soon as one fetch rejects or brings a response addAll refuses. *)
Fixpoint fetch_all (net : Network) (urls : list string) : option (list (string * Response)) :=
  match urls with
  | [] => Some []
  | u :: us =>
      match net (request_of_url u) with
      | NetworkResponse r =>
          if addAll_ok r then
            match fetch_all net us with
            | Some es => Some ((u, r) :: es)
            | None => None
            end
          else None
      | NetworkError => None
      end
  end.

Definition put_all (es : list (string * Response)) (c : gmap string Response)
  : gmap string Response :=
  fold_left (fun m e => <[fst e := snd e]> m) es c.

(** cache.addAll(urls): fetch every URL; when all the fetches are
    accepted store all the entries in one batch, otherwise reject with a
    TypeError and store nothing. *)
Definition cache_addAll (name : string) (urls : list string) : Promise unit :=
  fun net w =>
    let w1 := log (map (fun u => EvFetch (request_of_url u)) urls) w in
    match fetch_all net urls with
    | Some es =>
        (Fulfilled tt,
         {| storage := update_cache name (put_all es) (storage w1);
            trace := trace w1 ++ map (fun e => EvCachePut name (fst e)) es |})
    | None => (Rejected "TypeError", w1)
    end.

(** *** Event dispatch

    A listener runs to completion: it registers promises with
    event.waitUntil / event.respondWith and performs its synchronous calls.
    Only after it has returned does the event loop run the reactions of
    the registered promises. *)
Record ListenerState := {
  sync_trace : list Event;
  lifetime : list (Promise unit);
  response : option (Promise (option Response))
}.

Definition Listener := ListenerState -> ListenerState.

Definition listener_start : ListenerState :=
  {| sync_trace := []; lifetime := []; response := None |}.

(** event.waitUntil(p) *)
Definition waitUntil (p : Promise unit) : Listener :=
  fun s => {| sync_trace := sync_trace s ++ [EvWaitUntil];
              lifetime := lifetime s ++ [p];
              response := response s |}.

(** self.skipWaiting() *)
Definition skipWaiting : Listener :=
  fun s => {| sync_trace := sync_trace s ++ [EvSkipWaiting];
              lifetime := lifetime s;
              response := response s |}.

(** event.respondWith(p) *)
Definition respondWith (p : Promise (option Response)) : Listener :=
  fun s => {| sync_trace := sync_trace s ++ [EvRespondWith];
              lifetime := lifetime s;
              response := Some p |}.

(** event.waitUntil(op) with an argument that starts an operation: the
    argument is evaluated first, which makes the call, and its promise is
    handed to waitUntil. *)
Definition waitUntil_started (op : Started unit) : Listener :=
  fun s => waitUntil (promise op)
             {| sync_trace := sync_trace s ++ called op;
                lifetime := lifetime s;
                response := response s |}.

(** Two statements of a listener, one after the other. *)
Definition seq (a b : Listener) : Listener := fun s => b (a s).

(** The promises given to waitUntil, run one after the other: fulfilled
    when all are, rejected with the first rejection. *)
Fixpoint run_lifetime (ps : list (Promise unit)) : Promise unit :=
  match ps with
  | [] => resolve tt
  | p :: rest => then_ p (fun _ => run_lifetime rest)
  end.

(** *** The script *)

Definition CACHE_NAME : string := "undo-cache-v1".
Definition OFFLINE_URL : string := "/static/offline.html".
Definition PRECACHE : list string :=
  [ "/";
    "/static/style.css";
    OFFLINE_URL;
    "/static/icons/icon-192.png";
    "/static/icons/icon-512.png";
    "/static/manifest.webmanifest" ].

(** caches.open(CACHE_NAME).then((cache) => cache.addAll(PRECACHE)) *)
Definition install_populate : Started unit :=
  then_started (caches_open CACHE_NAME) (fun cache => cache_addAll cache PRECACHE).

(** The "install" listener:
      event.waitUntil(caches.open(CACHE_NAME).then(...));
      self.skipWaiting(); *)
Definition install_listener : Listener :=
  seq (waitUntil_started install_populate)
      skipWaiting.

(** The "fetch" listener:
      if (req.mode === "navigate") {
        event.respondWith(fetch(req).catch(() => caches.match(OFFLINE_URL)));
        return;
      }
      event.respondWith(caches.match(req).then((hit) => hit || fetch(req))); *)
Definition fetch_listener (req : Request) : Listener :=
  if String.eqb (mode req) "navigate" then
    respondWith
      (catch_ (defined (fetch req))
              (fun _ => caches_match (request_of_url OFFLINE_URL)))
  else
    respondWith
      (then_ (caches_match req)
             (fun hit =>
                match hit with
                | Some r => resolve (Some r)
                | None => defined (fetch req)
                end)).

(** Dispatch of the install event on a storage: the listener runs, then
    the lifetime promises; the installation succeeds when they fulfil and
    fails when one rejects. *)
Definition dispatch_install (net : Network) (cs : CacheStorage) : Settled unit * World :=
  let s := install_listener listener_start in
  match run_lifetime (lifetime s) net {| storage := cs; trace := sync_trace s |} with
  | (Fulfilled tt, w) => (Fulfilled tt, log [EvLifetimeSettled true] w)
  | (Rejected e, w) => (Rejected e, log [EvLifetimeSettled false] w)
  end.

(** Dispatch of a fetch event: the listener runs, then the promise given
    to respondWith; what it settles with is served to the page. *)
Definition dispatch_fetch (net : Network) (cs : CacheStorage) (req : Request)
  : Settled (option Response) * World :=
  let s := fetch_listener req listener_start in
  match response s with
  | Some p => p net {| storage := cs; trace := sync_trace s |}
  | None =>
      (* no respondWith: the browser performs the request itself *)
      defined (fetch req) net {| storage := cs; trace := sync_trace s |}
  end.

(** *** Vocabulary of the specification *)

(** The fetch that Cache.addAll makes for [u] succeeds: the network
    answers, and with a response that addAll accepts. *)
Definition precache_fetch_ok (net : Network) (u : string) : bool :=
  match net (request_of_url u) with
  | NetworkResponse r => addAll_ok r
  | NetworkError => false
  end.

(** "Readiness to skip waiting is signaled only after precache population
    has succeeded": wherever skipWaiting occurs in the trace of an
    installation, the successful settlement of the population precedes it. *)
Definition skip_only_after_population (net : Network) (cs : CacheStorage) : Prop :=
  forall pre post,
    trace (snd (dispatch_install net cs)) = pre ++ EvSkipWaiting :: post ->
    In (EvLifetimeSettled true) pre.

(** An event of the precache population. *)
Definition population_event (e : Event) : Prop :=
  match e with
  | EvCachesOpen _ | EvFetch _ | EvCachePut _ _ | EvLifetimeSettled _ => True
  | _ => False
  end.

(** Fetch events handled one after the other, each with the network of
    its time; the storage they leave. *)
Fixpoint storage_after_fetches (cs : CacheStorage) (evs : list (Network * Request))
  : CacheStorage :=
  match evs with
  | [] => cs
  | (net, req) :: rest =>
      storage_after_fetches (storage (snd (dispatch_fetch net cs req))) rest
  end.

(** *** Networks for the examples *)

Definition online : Network :=
  fun req => NetworkResponse {| status := 200; body := String.append "content of " (url req) |}.

Definition offline : Network := fun _ => NetworkError.

(** A server that answers every request with the given status. *)
Definition answering (code : Z) : Network :=
  fun _ => NetworkResponse {| status := code; body := "error page" |}.

(** Everything is reachable but the 512 pixel icon. *)
Definition icon_missing : Network :=
  fun req =>
    if String.eqb (url req) "/static/icons/icon-512.png" then NetworkError
    else online req.

(** The storage a first installation leaves when everything is reachable. *)
Definition installed : CacheStorage := storage (snd (dispatch_install online [])).

(** *** Requests and responses for the examples *)

Definition page_load : Request :=
  {| url := "/reflections"; method := "GET"; mode := "navigate" |}.

Definition stylesheet : Request :=
  {| url := "/static/style.css"; method := "GET"; mode := "no-cors" |}.

Definition offline_page : Response :=
  {| status := 200; body := "content of /static/offline.html" |}.

(** *** The rest of the life cycle *)

(** self.clients.claim(): the worker takes control of the open pages of
    its scope.  It touches neither the network nor the cache storage. *)
Definition clients_claim : Promise unit := fun _ w => (Fulfilled tt, w).

(** The "activate" listener:
      event.waitUntil(self.clients.claim()); *)
Definition activate_listener : Listener := waitUntil clients_claim.

(** Dispatch of the activate event. *)
Definition dispatch_activate (net : Network) (cs : CacheStorage) : Settled unit * World :=
  let s := activate_listener listener_start in
  match run_lifetime (lifetime s) net {| storage := cs; trace := sync_trace s |} with
  | (Fulfilled tt, w) => (Fulfilled tt, log [EvLifetimeSettled true] w)
  | (Rejected e, w) => (Rejected e, log [EvLifetimeSettled false] w)
  end.

(** The events the worker listens to, each with the network of its time. *)
Inductive WorkerEvent :=
| OnInstall (net : Network)
| OnActivate (net : Network)
| OnFetch (net : Network) (req : Request).

(** The cache storage one event leaves. *)
Definition storage_step (cs : CacheStorage) (ev : WorkerEvent) : CacheStorage :=
  match ev with
  | OnInstall net => storage (snd (dispatch_install net cs))
  | OnActivate net => storage (snd (dispatch_activate net cs))
  | OnFetch net req => storage (snd (dispatch_fetch net cs req))
  end.

(** The cache storage a history of events leaves. *)
Definition storage_after_events (cs : CacheStorage) (evs : list WorkerEvent)
  : CacheStorage :=
  fold_left storage_step evs cs.

(** The requests sent to the network, in order, in a trace. *)
Fixpoint fetched (tr : list Event) : list Request :=
  match tr with
  | [] => []
  | EvFetch req :: rest => req :: fetched rest
  | _ :: rest => fetched rest
  end.

(** No cache other than the one called [name] has an entry for [u]. *)
Definition only_in_cache (name u : string) (cs : CacheStorage) : Prop :=
  forall n c, In (n, c) cs -> n <> name -> c !! u = None.

(** A cache of an earlier version, with a page of its own. *)
Definition old_storage : CacheStorage :=
  [("undo-cache-v0", {[ "/legacy.html" := {| status := 200; body := "legacy" |} ]})].

(** An offline page load of the precached root page. *)
Definition root_load : Request :=
  {| url := "/"; method := "GET"; mode := "navigate" |}.

(** A form post to a precached URL. *)
Definition post_to_root : Request :=
  {| url := "/"; method := "POST"; mode := "cors" |}.

End SW.

(** ** Part 2: static/swipe.js *)

Module Swipe.

(** Client coordinates are whole CSS pixels, so displacements are
    integers.  The script computes the swipe angle in double precision;
    here the comparison with 30 degrees is decided exactly, and proved
    equal to the comparison of the real-valued angle. *)

(** *** Platform model: DOM targets, URL parsing *)

(** An element, as far as the selector of [isFormEl] can see it: its tag
    name (lower case) and the value of its contenteditable attribute. *)
Record Element := { tagName : string; contenteditable : option string }.

(** The target of a touch event: null, an event target without a [closest]
    method (the document, the window), or an element together with its
    ancestors, innermost first. *)
Inductive Target :=
| NoTarget
| OtherTarget
| ElementTarget (self : Element) (ancestors : list Element).

(** e.matches('input, textarea, select, button, a, [contenteditable="true"]') *)
Definition matches_selector (e : Element) : bool :=
  String.eqb (tagName e) "input"
  || String.eqb (tagName e) "textarea"
  || String.eqb (tagName e) "select"
  || String.eqb (tagName e) "button"
  || String.eqb (tagName e) "a"
  || match contenteditable e with
     | Some v => String.eqb v "true"
     | None => false
     end.

(** el.closest(selector): the element itself or its nearest ancestor
    matching the selector, null ([None]) if there is none. *)
Definition closest (self : Element) (ancestors : list Element) : option Element :=
  List.find matches_selector (self :: ancestors).

(** Truthiness of a string-or-undefined value: the empty string and
    undefined/null are falsy. *)
Definition truthy (v : option string) : bool :=
  match v with
  | Some s => negb (String.eqb s "")
  | None => false
  end.

(** JavaScript's [%] on integers: the remainder takes the sign of the
    dividend. *)
Definition js_rem (a b : Z) : Z := Z.rem a b.

(** arr.findIndex(p): the index of the first element satisfying [p], -1 if
    there is none. *)
Fixpoint findIndex_from {A} (p : A -> bool) (i : Z) (l : list A) : Z :=
  match l with
  | [] => -1
  | x :: rest => if p x then i else findIndex_from p (i + 1) rest
  end.

Definition findIndex {A} (p : A -> bool) (l : list A) : Z := findIndex_from p 0 l.

(** arr[k]: undefined ([None]) outside the array. *)
Definition array_get {A} (l : list A) (k : Z) : option A :=
  if k <? 0 then None else l !! Z.to_nat k.

(** The completion of a platform call that may throw. *)
Inductive Completion (A : Type) :=
| Normal (a : A)
| Throw.
Arguments Normal {A} a.
Arguments Throw {A}.

(** *** The script *)

Definition SWIPE_THRESHOLD : Z := 60.
Definition MAX_ANGLE_DEG : Z := 30.

(** The four variables shared by the touch listeners. *)
Record State := { startX : Z; startY : Z; moved : bool; ignore : bool }.

Definition initial : State :=
  {| startX := 0; startY := 0; moved := false; ignore := false |}.

(** isFormEl(el): el && el.closest && el.closest(...) *)
Definition isFormEl (el : Target) : option Element :=
  match el with
  | NoTarget => None
  | OtherTarget => None
  | ElementTarget self ancestors => closest self ancestors
  end.

(** The comparison [Math.atan2(ady, adx) * 180 / Math.PI <= 30] for
    [adx > 0] and [ady >= 0], decided exactly on integer pixel distances:
    the angle is at most 30 degrees when ady/adx <= tan 30 = 1/sqrt 3,
    that is when 3 ady^2 <= adx^2 (see [atan2_deg_le_max_correct]). *)
Definition atan2_deg_le_max (ady adx : Z) : bool :=
  3 * (ady * ady) <=? adx * adx.

(** angleOK(dx, dy) *)
Definition angleOK (dx dy : Z) : bool :=
  let adx := Z.abs dx in
  let ady := Z.abs dy in
  if adx =? 0 then false
  else atan2_deg_le_max ady adx.

(** goto(url): [Some u] is the call window.location.assign(u), [None] is
    no navigation. *)
Definition goto (u : option string) : option string :=
  if truthy u then u else None.

Section Page.

(** [new URL(href, base).pathname]; the constructor throws on a URL
    it cannot parse. *)
Variable url_pathname : string -> string -> Completion string.
(** window.location.origin and window.location.href *)
Variable origin : string.
Variable location_href : string.
(** The href of every anchor of nav.undo-nav, in document order. *)
Variable nav_hrefs : list string.

(** The tab list: the navbar links, or the three fallback paths. *)
Definition tabs : list string :=
  match nav_hrefs with
  | [] => map (fun p => String.append origin p) ["/"; "/reflections"; "/profile"]
  | _ :: _ => nav_hrefs
  end.

Definition tabs_length : Z := Z.of_nat (length tabs).

(** normalizePath(href): the pathname, null ([None]) when the URL
    constructor throws. *)
Definition normalizePath (href : string) : option string :=
  match url_pathname href origin with
  | Normal p => Some p
  | Throw => None
  end.

(** normalizePath(t) === path, for a string [path] *)
Definition same_path (path : string) (t : string) : bool :=
  match normalizePath t with
  | Some q => String.eqb q path
  | None => false
  end.

(** tabIndexOf(href) *)
Definition tabIndexOf (href : string) : Z :=
  let path := normalizePath href in
  if negb (truthy path) then -1
  else match path with
       | Some p => findIndex (same_path p) tabs
       | None => -1
       end.

(** nextTab() *)
Definition nextTab : option string :=
  let i := tabIndexOf location_href in
  if 0 <=? i then goto (array_get tabs (js_rem (i + 1) tabs_length))
  else None.

(** prevTab() *)
Definition prevTab : option string :=
  let i := tabIndexOf location_href in
  if 0 <=? i then goto (array_get tabs (js_rem (i - 1 + tabs_length) tabs_length))
  else None.

(** The "touchstart" listener; [x], [y] are the client coordinates of
    e.touches[0]. *)
Definition touchstart (target : Target) (x y : Z) (s : State) : State :=
  {| startX := x; startY := y;
     moved := false;
     ignore := match isFormEl target with Some _ => true | None => false end |}.

(** The "touchmove" listener. *)
Definition touchmove (s : State) : State :=
  {| startX := startX s; startY := startY s; moved := true; ignore := ignore s |}.

(** The "touchend" listener; [x], [y] are the client coordinates of
    e.changedTouches[0].  The result is the navigation it performs. *)
Definition touchend (x y : Z) (s : State) : option string :=
  if ignore s || negb (moved s) then None
  else
    let dx := x - startX s in
    let dy := y - startY s in
    if Z.abs dx <? SWIPE_THRESHOLD then None
    else if negb (angleOK dx dy) then None
    else if dx <? 0 then nextTab
    else prevTab.

(** Touch events as the document receives them. *)
Inductive TouchEvent :=
| TouchStart (target : Target) (x y : Z)
| TouchMove
| TouchEnd (x y : Z).

(** One event: the new state and the navigation performed, if any. *)
Definition handle (s : State) (e : TouchEvent) : State * option string :=
  match e with
  | TouchStart target x y => (touchstart target x y s, None)
  | TouchMove => (touchmove s, None)
  | TouchEnd x y => (s, touchend x y s)
  end.

(** A run of events: the final state and the navigations, in order. *)
Fixpoint run (s : State) (es : list TouchEvent) : State * list string :=
  match es with
  | [] => (s, [])
  | e :: rest =>
      let '(s1, nav) := handle s e in
      let '(s2, navs) := run s1 rest in
      (s2, match nav with Some u => u :: navs | None => navs end)
  end.

(** A touch sequence: a touch start, any number of moves, a touch end. *)
Definition touch_sequence (target : Target) (x0 y0 : Z) (moves : nat) (x1 y1 : Z)
  : list TouchEvent :=
  TouchStart target x0 y0 :: repeat TouchMove moves ++ [TouchEnd x1 y1].

(** The path of [href] is the path of one of the tabs. *)
Definition path_in_tabs (href : string) : bool :=
  match normalizePath href with
  | Some p => existsb (same_path p) tabs
  | None => false
  end.

End Page.

(** *** Vocabulary of the specification *)

(** An element the selector of [isFormEl] matches: an input, textarea,
    select, button or anchor, or an element carrying the attribute
    contenteditable="true". *)
Definition form_element (e : Element) : Prop :=
  In (tagName e) ["input"; "textarea"; "select"; "button"; "a"]
  \/ contenteditable e = Some "true".

(** The touch started inside an element the selector matches: on one, or
    on a descendant of one. *)
Definition starts_inside_form_element (t : Target) : Prop :=
  match t with
  | ElementTarget self ancestors =>
      exists e, In e (self :: ancestors) /\ form_element e
  | _ => False
  end.

(** An editable element, as HTML has it: the contenteditable attribute is
    present with one of the keywords "true", the empty string or
    "plaintext-only" (written in lower case).  Descendants of such an
    element are editable by inheritance; they are inside it. *)
Definition editable (e : Element) : Prop :=
  In (contenteditable e) [Some ""; Some "true"; Some "plaintext-only"].

(** An interactive element, in the words of the specification: an input,
    textarea, select, button or anchor, or an editable element. *)
Definition interactive (e : Element) : Prop :=
  In (tagName e) ["input"; "textarea"; "select"; "button"; "a"]
  \/ editable e.

(** The touch started inside an interactive element: on one, or on a
    descendant of one. *)
Definition starts_inside_interactive (t : Target) : Prop :=
  match t with
  | ElementTarget self ancestors =>
      exists e, In e (self :: ancestors) /\ interactive e
  | _ => False
  end.

(** The angle of the displacement from the horizontal, in degrees, for a
    displacement with [dx <> 0]: Math.atan2(|dy|, |dx|) * 180 / Math.PI
    over the real numbers (with |dx| > 0, atan2 is the arc tangent of the
    quotient). *)
Definition angle_deg (dx dy : Z) : R :=
  (atan (IZR (Z.abs dy) / IZR (Z.abs dx)) * 180 / PI)%R.

(** A qualifying swipe, in the words of the specification: it moved, it
    did not start inside an interactive element, it went at least
    60 pixels sideways, at an angle of at most 30 degrees from the
    horizontal. *)
Definition qualifying (target : Target) (moves : nat) (dx dy : Z) : Prop :=
  (0 < moves)%nat
  /\ ~ starts_inside_interactive target
  /\ SWIPE_THRESHOLD <= Z.abs dx
  /\ (angle_deg dx dy <= IZR MAX_ANGLE_DEG)%R.

(** A swipe the touchend listener accepts: as a qualifying swipe, with
    the interactive elements narrowed to those the selector matches. *)
Definition accepted_swipe (target : Target) (moves : nat) (dx dy : Z) : Prop :=
  (0 < moves)%nat
  /\ ~ starts_inside_form_element target
  /\ SWIPE_THRESHOLD <= Z.abs dx
  /\ (angle_deg dx dy <= IZR MAX_ANGLE_DEG)%R.

(** *** A small URL parser for the examples

    It understands "https://host/path?query#fragment" and path-absolute
    references "/path?query#fragment"; everything else is unparsable. *)

Fixpoint cut_query (s : string) : string :=
  match s with
  | EmptyString => EmptyString
  | String c rest =>
      if Ascii.eqb c "?"%char || Ascii.eqb c "#"%char then EmptyString
      else String c (cut_query rest)
  end.

Fixpoint from_slash (s : string) : string :=
  match s with
  | EmptyString => "/"
  | String c rest => if Ascii.eqb c "/"%char then s else from_slash rest
  end.

Definition example_pathname (href base : string) : Completion string :=
  if String.prefix "https://" href
  then Normal (cut_query (from_slash (String.substring 8 (String.length href - 8)%nat href)))
  else if String.prefix "/" href then Normal (cut_query href)
  else if String.eqb href "" then Normal "/"
  else Throw.

Definition example_origin : string := "https://undo.example".



(** A span inside an anchor. *)
Definition span_in_anchor : Target :=
  ElementTarget {| tagName := "span"; contenteditable := None |}
                [ {| tagName := "a"; contenteditable := None |};
                  {| tagName := "nav"; contenteditable := None |} ].

(** *** Vocabulary of the further properties *)

(** The number of touch ends among the events. *)
Fixpoint touch_ends (es : list TouchEvent) : nat :=
  match es with
  | [] => 0%nat
  | TouchEnd _ _ :: rest => S (touch_ends rest)
  | _ :: rest => touch_ends rest
  end.

(** The tabs are distinct pages: every tab URL is non-empty and parses to
    a non-empty path, and no two tabs have the same path. *)
Definition distinct_pages (url_pathname : string -> string -> Completion string)
    (origin : string) (nav_hrefs : list string) : Prop :=
  (forall t, In t (tabs origin nav_hrefs) -> t <> "")
  /\ (forall t, In t (tabs origin nav_hrefs) ->
       exists p, url_pathname t origin = Normal p /\ p <> "")
  /\ (forall (j k : nat) t t',
       tabs origin nav_hrefs !! j = Some t ->
       tabs origin nav_hrefs !! k = Some t' ->
       normalizePath url_pathname origin t = normalizePath url_pathname origin t' ->
       j = k).

(** The page reached by [k] swipes to the left in a row, when every page
    carries the same navbar: a navigation loads the page of its target,
    and the script of that page starts with that location. *)
Fixpoint after_next_swipes (url_pathname : string -> string -> Completion string)
    (origin : string) (nav_hrefs : list string) (k : nat) (loc : string) : string :=
  match k with
  | O => loc
  | S k' =>
      match nextTab url_pathname origin loc nav_hrefs with
      | Some u => after_next_swipes url_pathname origin nav_hrefs k' u
      | None => loc
      end
  end.

End Swipe.

(** ** Properties of static/sw.js *)

Section FetchHandling.
Import SW.

Variable net : Network.
Variable cs : CacheStorage.
Variable req : Request.

(** What the navigation branch does, by the outcome of the live fetch. *)
Lemma dispatch_fetch_navigate :
  mode req = "navigate" ->
  dispatch_fetch net cs req =
    match net req with
    | NetworkResponse r =>
        (Fulfilled (Some r),
         {| storage := cs; trace := [EvRespondWith; EvFetch req] |})
    | NetworkError =>
        (Fulfilled (storage_match cs (request_of_url OFFLINE_URL)),
         {| storage := cs;
            trace := [EvRespondWith; EvFetch req; EvCachesMatch OFFLINE_URL] |})
    end.
Proof.
  intros Hmode.
  unfold dispatch_fetch, fetch_listener. rewrite Hmode. cbn.
  unfold catch_, defined, then_, fetch.
  destruct (net req); reflexivity.
Qed.

(** What the cache-first branch does, by the outcome of the lookup. *)
Lemma dispatch_fetch_asset :
  mode req <> "navigate" ->
  dispatch_fetch net cs req =
    match storage_match cs req with
    | Some hit =>
        (Fulfilled (Some hit),
         {| storage := cs; trace := [EvRespondWith; EvCachesMatch (url req)] |})
    | None =>
        (match net req with
         | NetworkResponse r => Fulfilled (Some r)
         | NetworkError => Rejected "TypeError"
         end,
         {| storage := cs;
            trace := [EvRespondWith; EvCachesMatch (url req); EvFetch req] |})
    end.
Proof.
  intros Hmode.
  unfold dispatch_fetch, fetch_listener.
  destruct (String.eqb_spec (mode req) "navigate") as [E | _]; [contradiction |].
  cbn. unfold then_, caches_match. cbn.
  destruct (storage_match cs req); [reflexivity |].
  unfold defined, then_, fetch. destruct (net req); reflexivity.
Qed.

(** Handling a fetch event never changes the cache storage. *)
Lemma dispatch_fetch_storage :
  storage (snd (dispatch_fetch net cs req)) = cs.
Proof.
  destruct (String.eqb_spec (mode req) "navigate") as [E | NE].
  - rewrite (dispatch_fetch_navigate E). destruct (net req); reflexivity.
  - rewrite (dispatch_fetch_asset NE).
    destruct (storage_match cs req); reflexivity.
Qed.

(** Handling a fetch event never reaches a cache write. *)
Lemma dispatch_fetch_no_put name u :
  ~ In (EvCachePut name u) (trace (snd (dispatch_fetch net cs req))).
Proof.
  destruct (String.eqb_spec (mode req) "navigate") as [E | NE].
  - rewrite (dispatch_fetch_navigate E).
    destruct (net req); cbn; intuition discriminate.
  - rewrite (dispatch_fetch_asset NE).
    destruct (storage_match cs req); cbn; intuition discriminate.
Qed.

(** C1. A navigation request is answered network-first.  The listener
    always starts with a live fetch of the request.  When that fetch
    rejects, the page is served what the caches hold for
    /static/offline.html, the offline fallback page.  When it resolves,
    its response is served as it is, and nothing is written to the cache
    storage. *)
Theorem navigate_network_first :
  mode req = "navigate" ->
  let served := fst (dispatch_fetch net cs req) in
  let after := snd (dispatch_fetch net cs req) in
  (exists rest, trace after = EvRespondWith :: EvFetch req :: rest)
  /\ (net req = NetworkError ->
      served = Fulfilled (storage_match cs (request_of_url OFFLINE_URL))
      /\ forall page,
           storage_match cs (request_of_url OFFLINE_URL) = Some page ->
           served = Fulfilled (Some page))
  /\ (forall r, net req = NetworkResponse r ->
      served = Fulfilled (Some r)
      /\ storage after = cs
      /\ forall name u, ~ In (EvCachePut name u) (trace after)).
Proof.
  intros Hmode served after. subst served after.
  split; [| split].
  - rewrite (dispatch_fetch_navigate Hmode).
    destruct (net req); cbn; eauto.
  - intros Hfail. rewrite (dispatch_fetch_navigate Hmode), Hfail. cbn.
    split; [reflexivity |]. intros page ->. reflexivity.
  - intros r Hr. split; [| split].
    + rewrite (dispatch_fetch_navigate Hmode), Hr. reflexivity.
    + apply dispatch_fetch_storage.
    + intros name u. apply dispatch_fetch_no_put.
Qed.

(** C2. Any other request is answered cache-first.  A cached entry
    matching the request is served without a network call; without a
    match the outcome of a live fetch is served: its response when it
    resolves, its rejection when it rejects.  In every case the cache
    storage after the event is the storage before it, and no cache write
    takes place. *)
Theorem asset_cache_first :
  mode req <> "navigate" ->
  let served := fst (dispatch_fetch net cs req) in
  let after := snd (dispatch_fetch net cs req) in
  (forall hit, storage_match cs req = Some hit ->
     served = Fulfilled (Some hit) /\ ~ In (EvFetch req) (trace after))
  /\ (storage_match cs req = None ->
      In (EvFetch req) (trace after)
      /\ (forall r, net req = NetworkResponse r -> served = Fulfilled (Some r))
      /\ (net req = NetworkError -> exists e, served = Rejected e))
  /\ storage after = cs
  /\ (forall name u, ~ In (EvCachePut name u) (trace after)).
Proof.
  intros Hmode served after. subst served after.
  split; [| split; [| split]].
  - intros hit Hhit. rewrite (dispatch_fetch_asset Hmode), Hhit. cbn.
    split; [reflexivity |]. intuition discriminate.
  - intros Hmiss. rewrite (dispatch_fetch_asset Hmode), Hmiss. cbn.
    split; [tauto |]. split.
    + intros r ->. reflexivity.
    + intros ->. eauto.
  - apply dispatch_fetch_storage.
  - intros name u. apply dispatch_fetch_no_put.
Qed.

(** C10. A navigation fetch that resolves is served unchanged whatever
    the HTTP status of its response, 404 and 500 included, and the
    offline fallback is not even looked up; the fallback lookup takes
    place only when the fetch rejected. *)
Theorem navigate_serves_any_resolved_response :
  mode req = "navigate" ->
  let served := fst (dispatch_fetch net cs req) in
  let after := snd (dispatch_fetch net cs req) in
  (forall code content,
     net req = NetworkResponse {| status := code; body := content |} ->
     served = Fulfilled (Some {| status := code; body := content |})
     /\ ~ In (EvCachesMatch OFFLINE_URL) (trace after))
  /\ (In (EvCachesMatch OFFLINE_URL) (trace after) -> net req = NetworkError).
Proof.
  intros Hmode served after. subst served after.
  rewrite (dispatch_fetch_navigate Hmode).
  split.
  - intros code content ->. cbn. split; [reflexivity |]. intuition discriminate.
  - destruct (net req) as [| r]; cbn; [reflexivity |]. intuition discriminate.
Qed.

End FetchHandling.

Section CacheStorageFacts.
Import SW.

Lemma has_cache_open name cs : has_cache name (open_cache name cs) = true.
Proof.
  unfold open_cache. destruct (has_cache name cs) eqn:E; [exact E |].
  clear E. induction cs as [| [n c] rest IH]; cbn.
  - rewrite String.eqb_refl. reflexivity.
  - rewrite IH. apply orb_true_r.
Qed.

(** Opening a cache changes the entries of no cache. *)
Lemma cache_of_open name name' cs :
  cache_of name' (open_cache name cs) = cache_of name' cs.
Proof.
  unfold open_cache. destruct (has_cache name cs); [reflexivity |].
  induction cs as [| [n c] rest IH]; cbn.
  - destruct (String.eqb name name'); reflexivity.
  - destruct (String.eqb n name'); [reflexivity | exact IH].
Qed.

Lemma cache_of_update_same name f cs :
  has_cache name cs = true ->
  cache_of name (update_cache name f cs) = f (cache_of name cs).
Proof.
  induction cs as [| [n c] rest IH]; cbn; [discriminate |].
  destruct (String.eqb n name) eqn:E; cbn; rewrite E; [reflexivity |].
  cbn. exact IH.
Qed.

(** An entry of an existing cache is found by a query of the storage:
    in that cache, or in an older one that also has the URL. *)
Lemma storage_match_of_cache name cs u :
  has_cache name cs = true ->
  is_Some (cache_of name cs !! u) ->
  is_Some (storage_match cs (request_of_url u)).
Proof.
  induction cs as [| [n c] rest IH]; cbn; [discriminate |].
  intros Hhas Hin.
  destruct (c !! u) as [r |] eqn:Hc; [eauto |].
  destruct (String.eqb n name).
  - rewrite Hc in Hin. destruct Hin as [? Hin]. discriminate.
  - cbn in Hhas. apply IH; assumption.
Qed.

(** The batch of fetches goes through exactly when every single fetch
    succeeds. *)
Lemma fetch_all_Some net urls :
  (forall u, In u urls -> precache_fetch_ok net u = true) ->
  exists es, fetch_all net urls = Some es
             /\ map fst es = urls
             /\ forall u r, In (u, r) es -> net (request_of_url u) = NetworkResponse r.
Proof.
  induction urls as [| u us IH]; intros Hall.
  - exists []. cbn. intuition.
  - destruct IH as (es & Hes & Hkeys & Hresp).
    { intros v Hv. apply Hall. right. exact Hv. }
    pose proof (Hall u (or_introl eq_refl)) as Hu.
    unfold precache_fetch_ok in Hu. cbn.
    destruct (net (request_of_url u)) as [| r] eqn:Hnet; [discriminate |].
    rewrite Hu, Hes. exists ((u, r) :: es). cbn.
    split; [reflexivity |]. split; [congruence |].
    intros v r' [Heq | Hin]; [congruence | eauto].
Qed.

Lemma fetch_all_None net urls u :
  In u urls -> precache_fetch_ok net u = false -> fetch_all net urls = None.
Proof.
  induction urls as [| v vs IH]; intros Hin Hbad; [destruct Hin |].
  cbn. destruct Hin as [-> | Hin].
  - unfold precache_fetch_ok in Hbad.
    destruct (net (request_of_url u)); [reflexivity |].
    rewrite Hbad. reflexivity.
  - destruct (net (request_of_url v)); [reflexivity |].
    destruct (addAll_ok r); [| reflexivity].
    rewrite (IH Hin Hbad). reflexivity.
Qed.

Lemma fetch_all_keys net urls es :
  fetch_all net urls = Some es -> map fst es = urls.
Proof.
  revert es. induction urls as [| u us IH]; cbn; intros es H.
  - injection H as <-. reflexivity.
  - destruct (net (request_of_url u)); [discriminate |].
    destruct (addAll_ok r); [| discriminate].
    destruct (fetch_all net us) as [es' |]; [| discriminate].
    injection H as <-. cbn. f_equal. apply IH. reflexivity.
Qed.

Lemma put_all_lookup_notin (es : list (string * Response)) c u :
  ~ In u (map fst es) -> put_all es c !! u = c !! u.
Proof.
  unfold put_all. revert c. induction es as [| [k r] es IH]; cbn; intros c Hnot.
  - reflexivity.
  - rewrite IH by tauto. apply lookup_insert_ne. intros ->. tauto.
Qed.

Lemma put_all_lookup_in (es : list (string * Response)) c u :
  In u (map fst es) -> is_Some (put_all es c !! u).
Proof.
  unfold put_all. revert c. induction es as [| [k r] es IH]; cbn; intros c Hin.
  - destruct Hin.
  - destruct (in_dec string_dec u (map fst es)) as [Hlater | Hnot].
    + apply IH. exact Hlater.
    + destruct Hin as [-> | Hin]; [| contradiction].
      pose proof (put_all_lookup_notin es (<[u := r]> c) u Hnot) as E.
      unfold put_all in E. rewrite E, lookup_insert_eq. eauto.
Qed.

(** Every stored response is the one bound to its URL in the batch. *)
Lemma put_all_lookup_from (es : list (string * Response)) c u r :
  put_all es c !! u = Some r -> In (u, r) es \/ c !! u = Some r.
Proof.
  unfold put_all. revert c. induction es as [| [k r'] es IH]; cbn; intros c H.
  - right. exact H.
  - destruct (IH _ H) as [Hin | Hc]; [left; right; exact Hin |].
    destruct (decide (k = u)) as [-> | Hne].
    + rewrite lookup_insert_eq in Hc. left. left. congruence.
    + rewrite lookup_insert_ne in Hc by exact Hne. right. exact Hc.
Qed.

End CacheStorageFacts.

Section Install.
Import SW.

Lemma has_cache_update name name' f cs :
  has_cache name' (update_cache name f cs) = has_cache name' cs.
Proof.
  induction cs as [| [n c] rest IH]; cbn; [reflexivity |].
  destruct (String.eqb n name); cbn; [reflexivity |].
  rewrite IH. reflexivity.
Qed.

(** The installation, by the outcome of the batch of precache fetches. *)
Lemma dispatch_install_eq net cs :
  dispatch_install net cs =
    match fetch_all net PRECACHE with
    | Some es =>
        (Fulfilled tt,
         {| storage := update_cache CACHE_NAME (put_all es) (open_cache CACHE_NAME cs);
            trace := EvCachesOpen CACHE_NAME :: EvWaitUntil :: EvSkipWaiting
                     :: map (fun u => EvFetch (request_of_url u)) PRECACHE
                     ++ map (fun e => EvCachePut CACHE_NAME (fst e)) es
                     ++ [EvLifetimeSettled true] |})
    | None =>
        (Rejected "TypeError",
         {| storage := open_cache CACHE_NAME cs;
            trace := EvCachesOpen CACHE_NAME :: EvWaitUntil :: EvSkipWaiting
                     :: map (fun u => EvFetch (request_of_url u)) PRECACHE
                     ++ [EvLifetimeSettled false] |})
    end.
Proof.
  unfold dispatch_install, install_listener, seq, waitUntil_started, waitUntil,
    skipWaiting, listener_start, install_populate, then_started, caches_open.
  generalize PRECACHE. intros urls.
  cbn [lifetime sync_trace app run_lifetime called promise].
  unfold then_, cache_addAll, resolve, log.
  cbn [storage trace app].
  destruct (fetch_all net urls) as [es |]; cbn [storage trace app];
    rewrite <- ?app_assoc; reflexivity.
Qed.

Lemma install_fulfilled_inv net cs :
  fst (dispatch_install net cs) = Fulfilled tt ->
  exists es, fetch_all net PRECACHE = Some es
             /\ storage (snd (dispatch_install net cs))
                = update_cache CACHE_NAME (put_all es) (open_cache CACHE_NAME cs).
Proof.
  rewrite dispatch_install_eq.
  destruct (fetch_all net PRECACHE) as [es |]; cbn; [eauto | discriminate].
Qed.

Lemma NoDup_PRECACHE : List.NoDup PRECACHE.
Proof.
  unfold PRECACHE, OFFLINE_URL.
  repeat (apply List.NoDup_cons;
          [intros Hin; cbv [In] in Hin; intuition discriminate |]).
  apply List.NoDup_nil.
Qed.

(** C4 (amended). The precache manifest consists of six asset paths, all
    different.  After an installation in which every precache fetch
    succeeds, started with no entries in the cache "undo-cache-v1", the
    installation is fulfilled and that cache holds exactly those six
    entries, each with the response the network gave for it. *)
Theorem precache_manifest_installed net cs :
  cache_of CACHE_NAME cs = ∅ ->
  (forall u, In u PRECACHE -> precache_fetch_ok net u = true) ->
  let m := cache_of CACHE_NAME (storage (snd (dispatch_install net cs))) in
  length PRECACHE = 6%nat
  /\ List.NoDup PRECACHE
  /\ fst (dispatch_install net cs) = Fulfilled tt
  /\ (forall u, is_Some (m !! u) <-> In u PRECACHE)
  /\ (forall u r, m !! u = Some r -> net (request_of_url u) = NetworkResponse r)
  /\ size m = 6%nat.
Proof.
  intros Hfresh Hall m.
  destruct (fetch_all_Some net PRECACHE Hall) as (es & Hes & Hkeys & Hresp).
  assert (Hm : m = put_all es ∅).
  { subst m. rewrite dispatch_install_eq, Hes. cbn [snd storage].
    rewrite cache_of_update_same by apply has_cache_open.
    rewrite cache_of_open, Hfresh. reflexivity. }
  assert (Hdom : forall u, is_Some (m !! u) <-> In u PRECACHE).
  { intros u. rewrite Hm. split.
    - intros [r Hr]. destruct (put_all_lookup_from es ∅ u r Hr) as [Hin | Hin].
      + rewrite <- Hkeys. apply (in_map fst) in Hin. exact Hin.
      + rewrite lookup_empty in Hin. discriminate.
    - intros Hin. apply put_all_lookup_in. rewrite Hkeys. exact Hin. }
  split; [reflexivity |]. split; [apply NoDup_PRECACHE |].
  split; [rewrite dispatch_install_eq, Hes; reflexivity |].
  split; [exact Hdom |]. split.
  - intros u r Hr. rewrite Hm in Hr.
    destruct (put_all_lookup_from es ∅ u r Hr) as [Hin | Hin]; [eauto |].
    rewrite lookup_empty in Hin. discriminate.
  - assert (Hd : dom m = list_to_set PRECACHE).
    { apply set_eq. intros u. rewrite elem_of_dom, Hdom, elem_of_list_to_set.
      symmetry. apply list_elem_of_In. }
    rewrite <- size_dom, Hd, size_list_to_set.
    + reflexivity.
    + apply NoDup_ListNoDup, NoDup_PRECACHE.
Qed.

End Install.

Section InstallPolicy.
Import SW.

Variable net : Network.
Variable cs : CacheStorage.

(** C5 (amended). The install listener signals skipWaiting
    unconditionally, without waiting for the precache population: the
    signal is given once, by the listener itself, after it has called
    caches.open and handed the population promise to waitUntil; every
    precache fetch, every cache write and the settlement of the promise
    come after it, so it precedes the completion of the population, and
    it is given whether the population then succeeds or fails. *)
Theorem skip_waiting_signaled_unconditionally :
  exists body ok,
    trace (snd (dispatch_install net cs))
      = EvCachesOpen CACHE_NAME :: EvWaitUntil :: EvSkipWaiting
        :: body ++ [EvLifetimeSettled ok]
    /\ Forall population_event body
    /\ ~ In EvSkipWaiting (body ++ [EvLifetimeSettled ok])
    /\ (ok = true <-> fst (dispatch_install net cs) = Fulfilled tt).
Proof.
  rewrite dispatch_install_eq.
  assert (Hfetch : forall urls : list string,
             Forall population_event (map (fun u => EvFetch (request_of_url u)) urls)).
  { intros urls. apply List.Forall_forall. intros e He.
    apply in_map_iff in He. destruct He as (u & <- & _). exact I. }
  assert (Hput : forall es : list (string * Response),
             Forall population_event (map (fun e => EvCachePut CACHE_NAME (fst e)) es)).
  { intros es. apply List.Forall_forall. intros e He.
    apply in_map_iff in He. destruct He as (u & <- & _). exact I. }
  assert (Hno : forall body ok, Forall population_event body ->
             ~ In EvSkipWaiting (body ++ [EvLifetimeSettled ok])).
  { intros body ok Hbody Hin. apply in_app_or in Hin. destruct Hin as [Hin | Hin].
    - rewrite List.Forall_forall in Hbody. exact (Hbody _ Hin).
    - destruct Hin as [Hin | []]. discriminate. }
  destruct (fetch_all net PRECACHE) as [es |]; cbn [snd fst trace].
  - exists (map (fun u => EvFetch (request_of_url u)) PRECACHE
            ++ map (fun e => EvCachePut CACHE_NAME (fst e)) es), true.
    assert (Hbody : Forall population_event
              (map (fun u => EvFetch (request_of_url u)) PRECACHE
               ++ map (fun e => EvCachePut CACHE_NAME (fst e)) es)).
    { apply Forall_app. split; [apply Hfetch | apply Hput]. }
    split; [rewrite <- app_assoc; reflexivity |].
    split; [exact Hbody |]. split; [apply Hno, Hbody | tauto].
  - exists (map (fun u => EvFetch (request_of_url u)) PRECACHE), false.
    split; [reflexivity |].
    split; [apply Hfetch |]. split; [apply Hno, Hfetch |].
    split; discriminate.
Qed.

(** C6. Precache population is all or nothing.  When the fetch of a
    single manifest URL fails, the promise given to waitUntil rejects,
    so the installation fails and the failure reaches the runtime; no
    cache write takes place, and every cache of the storage, and the
    cache "undo-cache-v1" in particular, has the entries it had before:
    none at all when that cache did not exist. *)
Theorem install_all_or_nothing u :
  In u PRECACHE ->
  precache_fetch_ok net u = false ->
  let outcome := fst (dispatch_install net cs) in
  let after := snd (dispatch_install net cs) in
  (exists e, outcome = Rejected e)
  /\ In (EvLifetimeSettled false) (trace after)
  /\ (forall name v, ~ In (EvCachePut name v) (trace after))
  /\ (forall name, cache_of name (storage after) = cache_of name cs)
  /\ (has_cache CACHE_NAME cs = false ->
      forall v, In v PRECACHE -> cache_of CACHE_NAME (storage after) !! v = None).
Proof.
  intros Hin Hbad outcome after. subst outcome after.
  rewrite dispatch_install_eq, (fetch_all_None net PRECACHE u Hin Hbad).
  cbn [fst snd storage trace].
  assert (Hsame : forall name,
             cache_of name (open_cache CACHE_NAME cs) = cache_of name cs).
  { intros name. apply cache_of_open. }
  split; [eauto |]. split; [| split; [| split]].
  - do 3 right. apply in_or_app. right. left. reflexivity.
  - intros name v H. destruct H as [H | [H | [H | H]]]; try discriminate.
    apply in_app_or in H. destruct H as [H | [H | []]]; [| discriminate].
    apply in_map_iff in H. destruct H as (? & ? & _). discriminate.
  - exact Hsame.
  - intros Hnew v _. rewrite Hsame.
    assert (Hempty : forall l : CacheStorage,
               has_cache CACHE_NAME l = false -> cache_of CACHE_NAME l = ∅).
    { induction l as [| [n c] rest IH]; cbn; [reflexivity |].
      destruct (String.eqb n CACHE_NAME); cbn; [discriminate | exact IH]. }
    rewrite (Hempty cs Hnew). apply lookup_empty.
Qed.

Lemma storage_after_fetches_same (l : CacheStorage) evs :
  storage_after_fetches l evs = l.
Proof.
  revert l. induction evs as [| [n r] rest IH]; intros l; cbn; [reflexivity |].
  rewrite dispatch_fetch_storage. apply IH.
Qed.

(** C9. The offline fallback URL is in the precache manifest.  So after
    a fulfilled installation, and after any number of fetch events
    handled since, a navigation whose live fetch rejects is served a
    cached response: the lookup of /static/offline.html finds an entry. *)
Theorem offline_fallback_always_cached :
  fst (dispatch_install net cs) = Fulfilled tt ->
  let installed := storage (snd (dispatch_install net cs)) in
  In OFFLINE_URL PRECACHE
  /\ is_Some (cache_of CACHE_NAME installed !! OFFLINE_URL)
  /\ forall evs net' req,
       mode req = "navigate" ->
       net' req = NetworkError ->
       exists page,
         fst (dispatch_fetch net' (storage_after_fetches installed evs) req)
           = Fulfilled (Some page).
Proof.
  intros Hok installed. subst installed.
  destruct (install_fulfilled_inv net cs Hok) as (es & Hes & ->).
  assert (Hmem : In OFFLINE_URL PRECACHE) by (cbn; tauto).
  assert (Hentry : is_Some (cache_of CACHE_NAME
            (update_cache CACHE_NAME (put_all es) (open_cache CACHE_NAME cs))
            !! OFFLINE_URL)).
  { rewrite cache_of_update_same by apply has_cache_open.
    apply put_all_lookup_in. rewrite (fetch_all_keys net PRECACHE es Hes).
    exact Hmem. }
  split; [exact Hmem |]. split; [exact Hentry |].
  intros evs net' req Hmode Hfail.
  rewrite storage_after_fetches_same.
  rewrite dispatch_fetch_navigate by exact Hmode. rewrite Hfail. cbn [fst].
  assert (Hhas : has_cache CACHE_NAME
            (update_cache CACHE_NAME (put_all es) (open_cache CACHE_NAME cs)) = true).
  { rewrite has_cache_update. apply has_cache_open. }
  destruct (storage_match_of_cache CACHE_NAME _ OFFLINE_URL Hhas Hentry)
    as [page Hpage].
  exists page. rewrite Hpage. reflexivity.
Qed.

End InstallPolicy.

(** *** The scenarios of the specification, and the claims that fail *)

Section SWScenarios.
Import SW.

(** Scenario: the navigation fetch rejects; the page gets the cached
    offline page. *)
Lemma navigate_network_first_witness :
  mode page_load = "navigate"
  /\ offline page_load = NetworkError
  /\ fst (dispatch_fetch offline installed page_load) = Fulfilled (Some offline_page).
Proof.
  split; [reflexivity |]. split; [reflexivity |].
  destruct (navigate_network_first offline installed page_load eq_refl)
    as (_ & Hfail & _).
  destruct (Hfail eq_refl) as [_ Hpage].
  apply Hpage. vm_compute. reflexivity.
Defined.

(** Scenario: after the installation /static/style.css comes from the
    cache, with the network down and without a network call. *)
Lemma asset_cache_first_witness :
  mode stylesheet <> "navigate"
  /\ fst (dispatch_fetch offline installed stylesheet)
     = Fulfilled (Some {| status := 200; body := "content of /static/style.css" |})
  /\ storage (snd (dispatch_fetch offline installed stylesheet)) = installed.
Proof.
  assert (Hmode : mode stylesheet <> "navigate") by (simpl; discriminate).
  split; [exact Hmode |].
  destruct (asset_cache_first offline installed stylesheet Hmode)
    as (Hhit & _ & Hsame & _).
  split; [| exact Hsame].
  apply (Hhit {| status := 200; body := "content of /static/style.css" |}).
  vm_compute. reflexivity.
Defined.

(** Scenario: the server answers a page load with 404; the 404 response
    is what the page gets, not the offline page. *)
Lemma navigate_serves_any_resolved_response_witness :
  mode page_load = "navigate"
  /\ fst (dispatch_fetch (answering 404) installed page_load)
     = Fulfilled (Some {| status := 404; body := "error page" |}).
Proof.
  split; [reflexivity |].
  destruct (navigate_serves_any_resolved_response
              (answering 404) installed page_load eq_refl) as (Hserved & _).
  apply (Hserved 404 "error page" eq_refl).
Defined.

(** Against C4 as written: the manifest has six paths, not seven, and a
    first installation leaves six entries, not seven. *)
Lemma precache_manifest_not_seven :
  length PRECACHE <> 7%nat
  /\ size (cache_of CACHE_NAME installed) <> 7%nat.
Proof.
  split.
  - simpl. discriminate.
  - vm_compute. discriminate.
Qed.

Lemma precache_manifest_installed_witness :
  cache_of CACHE_NAME [] = ∅
  /\ (forall u, In u PRECACHE -> precache_fetch_ok online u = true)
  /\ size (cache_of CACHE_NAME installed) = 6%nat.
Proof.
  assert (Hfresh : cache_of CACHE_NAME [] = ∅) by reflexivity.
  assert (Hall : forall u, In u PRECACHE -> precache_fetch_ok online u = true)
    by (intros u _; reflexivity).
  split; [exact Hfresh |]. split; [exact Hall |].
  apply (precache_manifest_installed online [] Hfresh Hall).
Defined.

(** Against C5 as written: skipWaiting is signaled although the
    population fails (everything unreachable), and before the population
    has settled when it succeeds. *)
Lemma skip_waiting_not_after_population :
  ~ skip_only_after_population offline []
  /\ ~ skip_only_after_population online [].
Proof.
  split; intros H.
  - assert (E : exists post, trace (snd (dispatch_install offline []))
                             = [EvCachesOpen CACHE_NAME; EvWaitUntil] ++ EvSkipWaiting :: post)
      by (eexists; vm_compute; reflexivity).
    destruct E as [post E]. specialize (H _ _ E).
    destruct H as [H | [H | []]]; discriminate.
  - assert (E : exists post, trace (snd (dispatch_install online []))
                             = [EvCachesOpen CACHE_NAME; EvWaitUntil] ++ EvSkipWaiting :: post)
      by (eexists; vm_compute; reflexivity).
    destruct E as [post E]. specialize (H _ _ E).
    destruct H as [H | [H | []]]; discriminate.
Qed.

(** Scenario: one icon is unreachable; the installation fails and the
    new cache stays empty. *)
Lemma install_all_or_nothing_witness :
  In "/static/icons/icon-512.png" PRECACHE
  /\ precache_fetch_ok icon_missing "/static/icons/icon-512.png" = false
  /\ (exists e, fst (dispatch_install icon_missing []) = Rejected e)
  /\ cache_of CACHE_NAME (storage (snd (dispatch_install icon_missing []))) = ∅.
Proof.
  assert (Hin : In "/static/icons/icon-512.png" PRECACHE) by (simpl; tauto).
  assert (Hbad : precache_fetch_ok icon_missing "/static/icons/icon-512.png" = false)
    by reflexivity.
  split; [exact Hin |]. split; [exact Hbad |].
  destruct (install_all_or_nothing icon_missing [] _ Hin Hbad)
    as (Hrej & _ & _ & Hsame & _).
  split; [exact Hrej |]. exact (Hsame CACHE_NAME).
Defined.

Lemma offline_fallback_always_cached_witness :
  fst (dispatch_install online []) = Fulfilled tt
  /\ exists page,
       fst (dispatch_fetch offline
              (storage_after_fetches installed [(online, stylesheet)]) page_load)
       = Fulfilled (Some page).
Proof.
  assert (Hok : fst (dispatch_install online []) = Fulfilled tt) by reflexivity.
  split; [exact Hok |].
  destruct (offline_fallback_always_cached online [] Hok) as (_ & _ & Hserve).
  apply (Hserve [(online, stylesheet)] offline page_load); reflexivity.
Defined.

End SWScenarios.

(** ** Properties of static/swipe.js *)

(** *** The angle test *)

Section Angle.
Import Swipe.
Local Open Scope R_scope.







End Angle.

(** *** Index lookup *)

Section FindIndex.
Import Swipe.
Context {A : Type} (p : A -> bool).

(** findIndex answers -1 when no element satisfies the predicate, and
    otherwise the position of the first element that does. *)
Lemma findIndex_from_cases (l : list A) (i : Z) :
  (findIndex_from p i l = -1 /\ forall x, In x l -> p x = false)
  \/ exists (k : nat) (x : A),
       findIndex_from p i l = i + Z.of_nat k
       /\ l !! k = Some x /\ p x = true
       /\ forall (j : nat) y, (j < k)%nat -> l !! j = Some y -> p y = false.
Proof.
  revert i. induction l as [| a rest IH]; intros i; cbn.
  - left. split; [reflexivity |]. intros x [].
  - destruct (p a) eqn:Ha.
    + right. exists 0%nat, a. cbn. repeat split; [lia | exact Ha |].
      intros j y Hj. lia.
    + destruct (IH (i + 1)) as [[Hnone Hall] | (k & x & Hk & Hx & Hpx & Hbefore)].
      * left. split; [exact Hnone |].
        intros x [<- | Hin]; [exact Ha | exact (Hall x Hin)].
      * right. exists (S k), x. cbn. repeat split; [lia | exact Hx | exact Hpx |].
        intros [| j] y Hj Hy; cbn in Hy.
        -- congruence.
        -- apply (Hbefore j y); [lia | exact Hy].
Qed.

Lemma findIndex_range (l : list A) :
  -1 <= findIndex p l < Z.of_nat (length l).
Proof.
  unfold findIndex.
  destruct (findIndex_from_cases l 0) as [[-> _] | (k & x & -> & Hx & _)].
  - lia.
  - apply lookup_lt_Some in Hx. lia.
Qed.

End FindIndex.

(** *** Tabs and touch sequences *)

(** Closes a disjunction one of whose members follows by congruence. *)
Ltac pick_disjunct := first [ congruence | left; pick_disjunct | right; pick_disjunct ].

Section Qualifying.
Import Swipe.

(** The selector of isFormEl, as a predicate. *)
Lemma matches_selector_form_element e :
  matches_selector e = true <-> form_element e.
Proof.
  unfold matches_selector, form_element.
  rewrite !orb_true_iff, !String.eqb_eq. cbn [In].
  destruct (contenteditable e) as [v |]; rewrite ?String.eqb_eq;
    split; intros H;
    repeat (destruct H as [H | H]);
    try contradiction; try discriminate;
    pick_disjunct.
Qed.

Lemma isFormEl_none_iff target :
  isFormEl target = None <-> ~ starts_inside_form_element target.
Proof.
  destruct target as [| | self ancestors];
    cbn [isFormEl starts_inside_form_element]; [tauto | tauto |].
  unfold closest. split.
  - intros Hnone (e & Hin & Hint).
    pose proof (List.find_none _ _ Hnone e Hin) as Hno.
    apply matches_selector_form_element in Hint. congruence.
  - intros Hno. destruct (List.find matches_selector (self :: ancestors)) as [e |] eqn:Hf;
      [| reflexivity].
    exfalso. apply Hno. apply List.find_some in Hf. destruct Hf as [Hin Hm].
    exists e. split; [exact Hin | apply matches_selector_form_element, Hm].
Qed.


(** The selector matches interactive elements only, so every qualifying
    swipe is accepted; the converse fails for the editable elements the
    selector leaves out. *)
Lemma qualifying_accepted target (moves : nat) dx dy :
  qualifying target moves dx dy -> accepted_swipe target moves dx dy.
Proof.
  intros (Hm & Hout & Hdx & Hang). repeat split; try assumption.
  intros Hin. apply Hout.
  destruct target as [| | self ancestors]; cbn in *; [exact Hin | exact Hin |].
  destruct Hin as (e & He & [Htag | Hce]).
  - exists e. split; [exact He | left; exact Htag].
  - exists e. split; [exact He |]. right. unfold editable. rewrite Hce.
    cbn. tauto.
Qed.

Lemma goto_nonempty t : t <> "" -> goto (Some t) = Some t.
Proof.
  intros Hne. unfold goto, truthy.
  destruct (String.eqb_spec t ""); [contradiction | reflexivity].
Qed.

End Qualifying.

Section Gesture.
Import Swipe.

Variable url_pathname : string -> string -> Completion string.
Variable origin : string.
Variable location_href : string.
Variable nav_hrefs : list string.

Local Abbreviation tabs := (Swipe.tabs origin nav_hrefs).
Local Abbreviation tabs_length := (Swipe.tabs_length origin nav_hrefs).
Local Abbreviation normalizePath := (Swipe.normalizePath url_pathname origin).
Local Abbreviation same_path := (Swipe.same_path url_pathname origin).
Local Abbreviation tabIndexOf := (Swipe.tabIndexOf url_pathname origin nav_hrefs).
Local Abbreviation path_in_tabs := (Swipe.path_in_tabs url_pathname origin nav_hrefs).
Local Abbreviation nextTab := (Swipe.nextTab url_pathname origin location_href nav_hrefs).
Local Abbreviation prevTab := (Swipe.prevTab url_pathname origin location_href nav_hrefs).
Local Abbreviation touchend := (Swipe.touchend url_pathname origin location_href nav_hrefs).
Local Abbreviation run := (Swipe.run url_pathname origin location_href nav_hrefs).

(** An unparsable tab URL matches no path. *)
Lemma same_path_unparsable path t :
  url_pathname t origin = Throw -> same_path path t = false.
Proof.
  intros H. unfold Swipe.same_path, Swipe.normalizePath. rewrite H. reflexivity.
Qed.

Lemma same_path_true path t :
  same_path path t = true <-> url_pathname t origin = Normal path.
Proof.
  unfold Swipe.same_path, Swipe.normalizePath.
  destruct (url_pathname t origin) as [q |].
  - rewrite String.eqb_eq. split; congruence.
  - split; discriminate.
Qed.

(** tabIndexOf answers -1, or the position of the first tab whose URL
    parses to the (non-empty) path of [href]. *)
Lemma tabIndexOf_cases href :
  tabIndexOf href = -1
  \/ exists (k : nat) t path,
       tabIndexOf href = Z.of_nat k
       /\ tabs !! k = Some t
       /\ normalizePath href = Some path
       /\ url_pathname t origin = Normal path
       /\ forall (j : nat) t', (j < k)%nat -> tabs !! j = Some t' ->
            url_pathname t' origin <> Normal path.
Proof.
  unfold Swipe.tabIndexOf.
  destruct (normalizePath href) as [path |] eqn:Hpath; cbn; [| left; reflexivity].
  destruct (negb (path =? "")%string); cbn; [| left; reflexivity].
  unfold findIndex.
  destruct (findIndex_from_cases (same_path path) tabs 0)
    as [[Hnone _] | (k & t & Hk & Ht & Hmatch & Hbefore)].
  - left. exact Hnone.
  - right. exists k, t, path. rewrite Hk.
    repeat split; [exact Ht | apply same_path_true, Hmatch |].
    intros j t' Hj Ht' Habs. apply same_path_true in Habs.
    rewrite (Hbefore j t' Hj Ht') in Habs. discriminate.
Qed.

Lemma tabIndexOf_range href : -1 <= tabIndexOf href < tabs_length.
Proof.
  unfold Swipe.tabs_length.
  destruct (tabIndexOf_cases href) as [-> | (k & t & path & -> & Ht & _)].
  - lia.
  - apply lookup_lt_Some in Ht. lia.
Qed.

(** A found index is the sign that the path is among the tabs. *)
Lemma tabIndexOf_found href :
  0 <= tabIndexOf href -> path_in_tabs href = true.
Proof.
  intros Hi.
  destruct (tabIndexOf_cases href) as [E | (k & t & path & _ & Ht & Hp & Hm & _)];
    [lia |].
  unfold Swipe.path_in_tabs. rewrite Hp. apply existsb_exists.
  exists t. split.
  - apply list_elem_of_In, list_elem_of_lookup. eauto.
  - apply same_path_true, Hm.
Qed.

Lemma tabIndexOf_not_found href :
  path_in_tabs href = false -> tabIndexOf href = -1.
Proof.
  intros Hnot.
  destruct (Z_lt_le_dec (tabIndexOf href) 0) as [Hneg | Hpos].
  - pose proof (tabIndexOf_range href). lia.
  - rewrite (tabIndexOf_found href Hpos) in Hnot. discriminate.
Qed.

Lemma array_get_nonneg (k : Z) :
  0 <= k -> array_get tabs k = tabs !! Z.to_nat k.
Proof.
  intros Hk. unfold array_get. destruct (Z.ltb_spec k 0); [lia | reflexivity].
Qed.

(** The two neighbours, with the remainder of the script read as the
    modulus of arithmetic. *)
Lemma nextTab_found :
  0 <= tabIndexOf location_href ->
  nextTab = goto (tabs !! Z.to_nat ((tabIndexOf location_href + 1) mod tabs_length)).
Proof.
  intros Hi. pose proof (tabIndexOf_range location_href) as Hr.
  unfold Swipe.nextTab. cbn zeta.
  destruct (Z.leb_spec 0 (tabIndexOf location_href)); [| lia].
  unfold js_rem. rewrite Z.rem_mod_nonneg by lia.
  rewrite array_get_nonneg; [reflexivity |].
  apply Z.mod_pos_bound. lia.
Qed.

Lemma prevTab_found :
  0 <= tabIndexOf location_href ->
  prevTab = goto (tabs !! Z.to_nat ((tabIndexOf location_href - 1 + tabs_length)
                                    mod tabs_length)).
Proof.
  intros Hi. pose proof (tabIndexOf_range location_href) as Hr.
  unfold Swipe.prevTab. cbn zeta.
  destruct (Z.leb_spec 0 (tabIndexOf location_href)); [| lia].
  unfold js_rem. rewrite Z.rem_mod_nonneg by lia.
  rewrite array_get_nonneg; [reflexivity |].
  apply Z.mod_pos_bound. lia.
Qed.


Lemma run_moves s (moves : nat) rest :
  run s (repeat TouchMove moves ++ rest)
  = run {| startX := startX s; startY := startY s;
           moved := moved s || negb (moves =? 0)%nat;
           ignore := ignore s |} rest.
Proof.
  revert s. induction moves as [| m IH]; intros s.
  - cbn [repeat app Nat.eqb negb]. rewrite orb_false_r. destruct s; reflexivity.
  - cbn [repeat app Swipe.run Swipe.handle]. rewrite IH. cbn.
    rewrite orb_true_r.
    destruct (Swipe.run _ _ _ _ _ rest) as [s2 navs]. reflexivity.
Qed.

(** A touch sequence performs what its touch end performs, in the state
    the touch start and the moves have left. *)
Lemma run_touch_sequence s target x0 y0 (moves : nat) x1 y1 :
  snd (run s (touch_sequence target x0 y0 moves x1 y1))
  = match touchend x1 y1
            {| startX := x0; startY := y0;
               moved := negb (moves =? 0)%nat;
               ignore := match isFormEl target with Some _ => true | None => false end |}
    with
    | Some u => [u]
    | None => []
    end.
Proof.
  unfold touch_sequence. cbn [Swipe.run Swipe.handle].
  rewrite run_moves. cbn.
  destruct (touchend x1 y1 _); reflexivity.
Qed.


(** C8. When the path of the current page is not found in the tab list,
    which includes the case of a current URL that cannot be parsed,
    tabIndexOf answers -1 and neither nextTab nor prevTab navigates, so
    no touch sequence navigates.  A tab URL that cannot be parsed
    matches no path; the lookup still answers, for every URL, with -1 or
    with the index of a tab whose URL parses. *)
Theorem no_navigation_when_path_not_found :
  (path_in_tabs location_href = false ->
     tabIndexOf location_href = -1
     /\ nextTab = None /\ prevTab = None
     /\ forall s target x0 y0 moves x1 y1,
          snd (run s (touch_sequence target x0 y0 moves x1 y1)) = [])
  /\ (url_pathname location_href origin = Throw -> path_in_tabs location_href = false)
  /\ (forall t path, url_pathname t origin = Throw -> same_path path t = false)
  /\ (forall href,
        -1 <= tabIndexOf href < tabs_length
        /\ (0 <= tabIndexOf href ->
            exists t path,
              tabs !! Z.to_nat (tabIndexOf href) = Some t
              /\ url_pathname t origin = Normal path
              /\ normalizePath href = Some path)).
Proof.
  split; [| split; [| split]].
  - intros Hnot. pose proof (tabIndexOf_not_found _ Hnot) as Hi.
    assert (Hnext : nextTab = None) by (unfold Swipe.nextTab; rewrite Hi; reflexivity).
    assert (Hprev : prevTab = None) by (unfold Swipe.prevTab; rewrite Hi; reflexivity).
    split; [exact Hi |]. split; [exact Hnext |]. split; [exact Hprev |].
    intros s target x0 y0 moves x1 y1.
    rewrite run_touch_sequence. unfold Swipe.touchend. rewrite Hnext, Hprev.
    repeat match goal with |- context [if ?b then _ else _] => destruct b end;
      reflexivity.
  - intros Hthrow. unfold Swipe.path_in_tabs, Swipe.normalizePath.
    rewrite Hthrow. reflexivity.
  - intros t path. apply same_path_unparsable.
  - intros href. split; [apply tabIndexOf_range |].
    intros Hi.
    destruct (tabIndexOf_cases href) as [E | (k & t & path & -> & Ht & Hp & Hm & _)];
      [lia |].
    exists t, path. rewrite Nat2Z.id. auto.
Qed.


(** The first tab with the path of a URL is where tabIndexOf finds it. *)
Lemma tabIndexOf_first_tab href (i : nat) t path :
  normalizePath href = Some path ->
  path <> "" ->
  tabs !! i = Some t ->
  url_pathname t origin = Normal path ->
  (forall (j : nat) t', (j < i)%nat -> tabs !! j = Some t' ->
     url_pathname t' origin <> Normal path) ->
  tabIndexOf href = Z.of_nat i.
Proof.
  intros Hp Hne Ht Hm Hfirst.
  unfold Swipe.tabIndexOf. rewrite Hp. cbn.
  destruct (String.eqb_spec path ""); [contradiction |]. cbn.
  assert (Hmatch : same_path path t = true) by (apply same_path_true; exact Hm).
  unfold findIndex.
  destruct (findIndex_from_cases (same_path path) tabs 0)
    as [[_ Hall] | (k & x & -> & Hx & Hpx & Hbefore)].
  - rewrite (Hall t) in Hmatch; [discriminate |].
    apply list_elem_of_In, list_elem_of_lookup. eauto.
  - destruct (Nat.lt_trichotomy k i) as [Hlt | [-> | Hgt]].
    + exfalso. apply (Hfirst k x Hlt Hx). apply same_path_true, Hpx.
    + lia.
    + rewrite (Hbefore i t Hgt Ht) in Hmatch. discriminate.
Qed.


End Gesture.

(** *** The scenarios of the specification *)

Section SwipeScenarios.
Import Swipe.

Local Abbreviation page_tabs := (tabs example_origin []).
Local Abbreviation swipe_on href :=
  (run example_pathname example_origin href [] initial).

(** Without a navbar the tab list is the three fallback pages. *)
Example fallback_tabs :
  page_tabs = [ "https://undo.example/";
                "https://undo.example/reflections";
                "https://undo.example/profile" ].
Proof. reflexivity. Qed.

(** On /reflections, a swipe with dx = -100, dy = 0 goes to /profile. *)
Example swipe_left_from_reflections :
  snd (swipe_on "https://undo.example/reflections"
         (touch_sequence NoTarget 200 300 4 100 300))
  = ["https://undo.example/profile"].
Proof. reflexivity. Qed.

(** On /, a swipe with dx = +80, dy = 10 wraps backwards to /profile. *)
Example swipe_right_from_root :
  snd (swipe_on "https://undo.example/"
         (touch_sequence NoTarget 100 300 4 180 310))
  = ["https://undo.example/profile"].
Proof. reflexivity. Qed.

(** Too steep (dx = 80, dy = 50, about 32 degrees), too short, no move,
    or started on a link: no navigation. *)
Example swipes_that_do_not_navigate :
  snd (swipe_on "https://undo.example/" (touch_sequence NoTarget 100 300 4 180 350)) = []
  /\ snd (swipe_on "https://undo.example/" (touch_sequence NoTarget 100 300 4 159 300)) = []
  /\ snd (swipe_on "https://undo.example/" (touch_sequence NoTarget 100 300 0 200 300)) = []
  /\ snd (swipe_on "https://undo.example/" (touch_sequence span_in_anchor 100 300 4 200 300)) = [].
Proof. repeat split. Qed.

Lemma fallback_tabs_nonempty : forall t, In t page_tabs -> t <> "".
Proof.
  intros t Hin. cbv [tabs map] in Hin. cbn [In] in Hin.
  destruct Hin as [<- | [<- | [<- | []]]]; discriminate.
Qed.




Lemma no_navigation_when_path_not_found_witness :
  path_in_tabs example_pathname example_origin [] "https://undo.example/settings" = false
  /\ snd (swipe_on "https://undo.example/settings"
            (touch_sequence NoTarget 200 300 4 100 300)) = [].
Proof.
  assert (Hnot : path_in_tabs example_pathname example_origin []
                   "https://undo.example/settings" = false) by reflexivity.
  split; [exact Hnot |].
  destruct (no_navigation_when_path_not_found
              example_pathname example_origin "https://undo.example/settings" [])
    as (Hnone & _).
  destruct (Hnone Hnot) as (_ & _ & _ & Hseq).
  apply Hseq.
Defined.

End SwipeScenarios.

(** ** Further properties of static/sw.js *)

Section StorageAlgebra.
Import SW.

Lemma cache_of_update_other name name' f cs :
  name' <> name ->
  cache_of name' (update_cache name f cs) = cache_of name' cs.
Proof.
intros Hne. induction cs as [| [n c] rest IH]; cbn; [reflexivity |].
destruct (String.eqb_spec n name) as [-> | Hn]; cbn.
- destruct (String.eqb_spec name name'); [congruence | reflexivity].
- destruct (String.eqb n name'); [reflexivity | exact IH].
Qed.

Lemma open_cache_existing name cs :
  has_cache name cs = true -> open_cache name cs = cs.
Proof. intros H. unfold open_cache. rewrite H. reflexivity. Qed.

Lemma update_cache_twice name f g cs :
  update_cache name f (update_cache name g cs)
  = update_cache name (fun c => f (g c)) cs.
Proof.
induction cs as [| [n c] rest IH]; cbn; [reflexivity |].
destruct (String.eqb n name) eqn:E; cbn; rewrite E; [reflexivity |].
rewrite IH. reflexivity.
Qed.

Lemma update_cache_ext name f g cs :
  (forall c, f c = g c) -> update_cache name f cs = update_cache name g cs.
Proof.
intros Hfg. induction cs as [| [n c] rest IH]; cbn; [reflexivity |].
destruct (String.eqb n name); [rewrite Hfg | rewrite IH]; reflexivity.
Qed.

(** A URL of the batch is stored with a response the batch binds to it. *)
Lemma put_all_lookup_bound (es : list (string * Response)) c u :
  In u (map fst es) -> exists r, put_all es c !! u = Some r /\ In (u, r) es.
Proof.
unfold put_all. revert c. induction es as [| [k r] es IH]; cbn; intros c Hin.
- destruct Hin.
- destruct (in_dec string_dec u (map fst es)) as [Hlater | Hnot].
  + destruct (IH (<[k := r]> c) Hlater) as (r' & Hr' & Hin').
    exists r'. split; [exact Hr' | right; exact Hin'].
  + destruct Hin as [-> | Hin]; [| contradiction].
    pose proof (put_all_lookup_notin es (<[u := r]> c) u Hnot) as E.
    unfold put_all in E. exists r. rewrite E, lookup_insert_eq.
    split; [reflexivity | left; reflexivity].
Qed.

(** The responses of a batch are those of the network. *)
Lemma fetch_all_responses net urls es :
  fetch_all net urls = Some es ->
  forall u r, In (u, r) es -> net (request_of_url u) = NetworkResponse r.
Proof.
revert es. induction urls as [| v vs IH]; cbn; intros es H u r Hin.
- injection H as <-. destruct Hin.
- destruct (net (request_of_url v)) as [| r'] eqn:Hv; [discriminate |].
  destruct (addAll_ok r'); [| discriminate].
  destruct (fetch_all net vs) as [es' |]; [| discriminate].
  injection H as <-. destruct Hin as [Heq | Hin].
  + injection Heq as <- <-. exact Hv.
  + exact (IH es' eq_refl u r Hin).
Qed.

(** Storing a batch of network responses a second time changes nothing. *)
Lemma put_all_twice net urls es c :
  fetch_all net urls = Some es -> put_all es (put_all es c) = put_all es c.
Proof.
intros Hes. apply map_eq. intros u.
destruct (in_dec string_dec u (map fst es)) as [Hin | Hnot].
- destruct (put_all_lookup_bound es (put_all es c) u Hin) as (r1 & H1 & Hin1).
  destruct (put_all_lookup_bound es c u Hin) as (r2 & H2 & Hin2).
  pose proof (fetch_all_responses net urls es Hes u r1 Hin1) as E1.
  pose proof (fetch_all_responses net urls es Hes u r2 Hin2) as E2.
  rewrite H1, H2. congruence.
- rewrite !put_all_lookup_notin by exact Hnot. reflexivity.
Qed.

(** A query depends on the request only through its method and URL. *)
Lemma storage_match_get cs req :
  method req = "GET" ->
  storage_match cs req = storage_match cs (request_of_url (url req)).
Proof.
intros Hget. induction cs as [| [n c] rest IH]; cbn; [reflexivity |].
rewrite Hget, IH. reflexivity.
Qed.

Lemma storage_match_not_get cs req :
  method req <> "GET" -> storage_match cs req = None.
Proof.
intros Hm. induction cs as [| [n c] rest IH]; cbn; [reflexivity |].
destruct (String.eqb_spec (method req) "GET"); [contradiction | exact IH].
Qed.

(** When no other cache has the URL, a query answers with the entry of
    the cache just written. *)
Lemma storage_match_update name f cs u :
  only_in_cache name u cs ->
  has_cache name cs = true ->
  is_Some (f (cache_of name cs) !! u) ->
  storage_match (update_cache name f cs) (request_of_url u)
  = f (cache_of name cs) !! u.
Proof.
unfold only_in_cache.
induction cs as [| [n c] rest IH]; cbn; intros Honly Hhas Hsome; [discriminate |].
destruct (String.eqb_spec n name) as [-> | Hn]; cbn.
- destruct Hsome as [r Hr]. rewrite Hr. reflexivity.
- rewrite (Honly n c (or_introl eq_refl) Hn).
  apply IH; [| exact Hhas | exact Hsome].
  intros n' c' Hin. apply Honly. right. exact Hin.
Qed.

Lemma only_in_cache_open name u cs :
  only_in_cache name u cs -> only_in_cache name u (open_cache name cs).
Proof.
unfold only_in_cache, open_cache. intros Honly n c Hin Hn.
destruct (has_cache name cs); [exact (Honly n c Hin Hn) |].
apply in_app_or in Hin. destruct Hin as [Hin | [Heq | []]].
- exact (Honly n c Hin Hn).
- injection Heq as <- <-. contradiction.
Qed.

End StorageAlgebra.

Section InstallAgain.
Import SW.

Variable net : Network.
Variable cs : CacheStorage.

(** X1. A fulfilled installation refreshes the manifest entries whatever
    the cache held before: every manifest URL is stored with the response
    the network gave during this installation, every other entry of the
    cache "undo-cache-v1" is as it was, and the other caches are as they
    were. *)
Theorem install_refreshes_manifest_entries :
  fst (dispatch_install net cs) = Fulfilled tt ->
  let after := storage (snd (dispatch_install net cs)) in
  (forall u, In u PRECACHE ->
     exists r, net (request_of_url u) = NetworkResponse r
               /\ cache_of CACHE_NAME after !! u = Some r)
  /\ (forall u, ~ In u PRECACHE ->
        cache_of CACHE_NAME after !! u = cache_of CACHE_NAME cs !! u)
  /\ (forall name, name <> CACHE_NAME -> cache_of name after = cache_of name cs).
Proof.
intros Hok after. subst after.
destruct (install_fulfilled_inv net cs Hok) as (es & Hes & ->).
pose proof (fetch_all_keys net PRECACHE es Hes) as Hkeys.
rewrite cache_of_update_same by apply has_cache_open.
rewrite cache_of_open.
split; [| split].
- intros u Hu. rewrite <- Hkeys in Hu.
  destruct (put_all_lookup_bound es (cache_of CACHE_NAME cs) u Hu) as (r & Hr & Hin).
  exists r. split; [exact (fetch_all_responses net PRECACHE es Hes u r Hin) | exact Hr].
- intros u Hu. apply put_all_lookup_notin. rewrite Hkeys. exact Hu.
- intros name Hne. rewrite cache_of_update_other by exact Hne. apply cache_of_open.
Qed.

(** X2. Installing is idempotent: a second installation under the same
    network conditions leaves the cache storage the first one left,
    whether the installations succeed or fail. *)
Theorem install_twice_same_storage :
  storage (snd (dispatch_install net (storage (snd (dispatch_install net cs)))))
  = storage (snd (dispatch_install net cs)).
Proof.
rewrite !dispatch_install_eq.
destruct (fetch_all net PRECACHE) as [es |] eqn:Hes; cbn [snd storage].
- rewrite open_cache_existing
    by (rewrite has_cache_update; apply has_cache_open).
  rewrite update_cache_twice. apply update_cache_ext.
  intros c. exact (put_all_twice net PRECACHE es c Hes).
- apply open_cache_existing, has_cache_open.
Qed.

End InstallAgain.

Section LifeCycle.
Import SW.

Lemma dispatch_activate_storage net cs :
  storage (snd (dispatch_activate net cs)) = cs.
Proof. reflexivity. Qed.

(** One event removes no entry. *)
Lemma storage_step_keeps cs ev name u :
  is_Some (cache_of name cs !! u) ->
  is_Some (cache_of name (storage_step cs ev) !! u).
Proof.
intros Hsome. destruct ev as [net | net | net req]; cbn [storage_step].
- rewrite dispatch_install_eq.
  destruct (fetch_all net PRECACHE) as [es |]; cbn [snd storage].
  + destruct (String.eqb_spec name CACHE_NAME) as [-> | Hne].
    * rewrite cache_of_update_same by apply has_cache_open.
      rewrite cache_of_open.
      destruct (in_dec string_dec u (map fst es)) as [Hin | Hnot].
      -- apply put_all_lookup_in. exact Hin.
      -- rewrite put_all_lookup_notin by exact Hnot. exact Hsome.
    * rewrite cache_of_update_other by exact Hne.
      rewrite cache_of_open. exact Hsome.
  + rewrite cache_of_open. exact Hsome.
- rewrite dispatch_activate_storage. exact Hsome.
- rewrite dispatch_fetch_storage. exact Hsome.
Qed.

(** One event adds entries only to "undo-cache-v1", and only for
    manifest URLs. *)
Lemma storage_step_bounded cs ev name u :
  is_Some (cache_of name (storage_step cs ev) !! u) ->
  is_Some (cache_of name cs !! u) \/ (name = CACHE_NAME /\ In u PRECACHE).
Proof.
intros Hsome. destruct ev as [net | net | net req]; cbn [storage_step] in Hsome.
- rewrite dispatch_install_eq in Hsome.
  destruct (fetch_all net PRECACHE) as [es |] eqn:Hes; cbn [snd storage] in Hsome.
  + destruct (String.eqb_spec name CACHE_NAME) as [-> | Hne].
    * rewrite cache_of_update_same in Hsome by apply has_cache_open.
      rewrite cache_of_open in Hsome. destruct Hsome as [r Hr].
      destruct (put_all_lookup_from es _ u r Hr) as [Hin | Hold].
      -- right. split; [reflexivity |].
         rewrite <- (fetch_all_keys net PRECACHE es Hes).
         apply (in_map fst) in Hin. exact Hin.
      -- left. eauto.
    * rewrite cache_of_update_other in Hsome by exact Hne.
      rewrite cache_of_open in Hsome. left. exact Hsome.
  + rewrite cache_of_open in Hsome. left. exact Hsome.
- rewrite dispatch_activate_storage in Hsome. left. exact Hsome.
- rewrite dispatch_fetch_storage in Hsome. left. exact Hsome.
Qed.

Lemma storage_step_other cs ev name :
  name <> CACHE_NAME -> cache_of name (storage_step cs ev) = cache_of name cs.
Proof.
intros Hne. destruct ev as [net | net | net req]; cbn [storage_step].
- rewrite dispatch_install_eq.
  destruct (fetch_all net PRECACHE) as [es |]; cbn [snd storage].
  + rewrite cache_of_update_other by exact Hne. apply cache_of_open.
  + apply cache_of_open.
- rewrite dispatch_activate_storage. reflexivity.
- rewrite dispatch_fetch_storage. reflexivity.
Qed.

Lemma has_cache_open_mono name name' cs :
  has_cache name cs = true -> has_cache name (open_cache name' cs) = true.
Proof.
intros Hhas. unfold open_cache. destruct (has_cache name' cs); [exact Hhas |].
induction cs as [| [n c] rest IH]; cbn in *; [discriminate |].
destruct (String.eqb n name); cbn in *; [reflexivity | exact (IH Hhas)].
Qed.

(** One event removes no cache. *)
Lemma storage_step_has_cache cs ev name :
  has_cache name cs = true ->
  has_cache name (storage_step cs ev) = true.
Proof.
intros Hhas. destruct ev as [net | net | net req]; cbn [storage_step].
- rewrite dispatch_install_eq.
  destruct (fetch_all net PRECACHE) as [es |]; cbn [snd storage].
  + rewrite has_cache_update. apply has_cache_open_mono, Hhas.
  + apply has_cache_open_mono, Hhas.
- rewrite dispatch_activate_storage. exact Hhas.
- rewrite dispatch_fetch_storage. exact Hhas.
Qed.

Lemma storage_after_events_keeps cs evs name u :
  is_Some (cache_of name cs !! u) ->
  is_Some (cache_of name (storage_after_events cs evs) !! u).
Proof.
unfold storage_after_events. revert cs.
induction evs as [| ev rest IH]; intros cs Hsome; cbn [fold_left].
- exact Hsome.
- apply IH. apply storage_step_keeps. exact Hsome.
Qed.

Lemma storage_after_events_has_cache cs evs name :
  has_cache name cs = true ->
  has_cache name (storage_after_events cs evs) = true.
Proof.
unfold storage_after_events. revert cs.
induction evs as [| ev rest IH]; intros cs Hhas; cbn [fold_left].
- exact Hhas.
- apply IH. apply storage_step_has_cache. exact Hhas.
Qed.

(** X3. The worker never evicts: whatever installations, activations and
    fetch events it handles, in whatever order and under whatever network
    conditions, a cache that existed still exists afterwards and an entry
    that was in a cache is still in that cache.  Nothing in the script
    deletes a cache or an entry. *)
Theorem events_never_remove_entries cs evs name :
  (has_cache name cs = true ->
     has_cache name (storage_after_events cs evs) = true)
  /\ (forall u, is_Some (cache_of name cs !! u) ->
        is_Some (cache_of name (storage_after_events cs evs) !! u)).
Proof.
split.
- apply storage_after_events_has_cache.
- intros u. apply storage_after_events_keeps.
Qed.

(** X4. The worker writes nothing but the manifest: after any history of
    events, caches with other names are exactly as they were, and an
    entry of "undo-cache-v1" either was there before or belongs to a
    manifest URL.  Responses fetched for pages and assets are never
    added. *)
Theorem events_only_add_manifest_entries cs evs :
  (forall name, name <> CACHE_NAME ->
     cache_of name (storage_after_events cs evs) = cache_of name cs)
  /\ (forall u, is_Some (cache_of CACHE_NAME (storage_after_events cs evs) !! u) ->
        is_Some (cache_of CACHE_NAME cs !! u) \/ In u PRECACHE).
Proof.
unfold storage_after_events. revert cs.
induction evs as [| ev rest IH]; intros cs; cbn [fold_left].
- split; [reflexivity | tauto].
- destruct (IH (storage_step cs ev)) as [Hother Hgrow]. split.
  + intros name Hne. rewrite (Hother name Hne). apply storage_step_other, Hne.
  + intros u Hu. destruct (Hgrow u Hu) as [Hstep | Hin]; [| right; exact Hin].
    destruct (storage_step_bounded cs ev CACHE_NAME u Hstep) as [Hold | [_ Hin]];
      [left; exact Hold | right; exact Hin].
Qed.

(** X5. Offline support, once installed, is never lost: after a fulfilled
    installation and any further history of events (failed
    re-installations included), a navigation whose live fetch rejects is
    served a cached response. *)
Theorem offline_support_survives_events net cs evs net' req :
  fst (dispatch_install net cs) = Fulfilled tt ->
  mode req = "navigate" ->
  net' req = NetworkError ->
  let later := storage_after_events (storage (snd (dispatch_install net cs))) evs in
  exists page, fst (dispatch_fetch net' later req) = Fulfilled (Some page).
Proof.
intros Hok Hmode Hfail later.
destruct (install_fulfilled_inv net cs Hok) as (es & Hes & Hst).
assert (Hentry : is_Some (cache_of CACHE_NAME (storage (snd (dispatch_install net cs)))
                          !! OFFLINE_URL)).
{ rewrite Hst, cache_of_update_same by apply has_cache_open.
  apply put_all_lookup_in. rewrite (fetch_all_keys net PRECACHE es Hes).
  cbn. tauto. }
assert (Hhas : has_cache CACHE_NAME later = true).
{ subst later. apply storage_after_events_has_cache.
  rewrite Hst, has_cache_update. apply has_cache_open. }
pose proof (storage_after_events_keeps _ evs _ _ Hentry) as Hlater.
destruct (storage_match_of_cache CACHE_NAME later OFFLINE_URL Hhas Hlater)
  as [page Hpage].
exists page. rewrite dispatch_fetch_navigate by exact Hmode.
rewrite Hfail. cbn [fst]. rewrite Hpage. reflexivity.
Qed.

End LifeCycle.

Section InstalledFetch.
Import SW.

(** The cache "undo-cache-v1" right after a fulfilled installation. *)
Lemma installed_entry net cs u :
  fst (dispatch_install net cs) = Fulfilled tt ->
  In u PRECACHE ->
  has_cache CACHE_NAME (storage (snd (dispatch_install net cs))) = true
  /\ exists r, net (request_of_url u) = NetworkResponse r
               /\ cache_of CACHE_NAME (storage (snd (dispatch_install net cs))) !! u
                  = Some r
               /\ (only_in_cache CACHE_NAME u cs ->
                   storage_match (storage (snd (dispatch_install net cs)))
                                 (request_of_url u) = Some r).
Proof.
intros Hok Hu.
destruct (install_fulfilled_inv net cs Hok) as (es & Hes & ->).
pose proof (fetch_all_keys net PRECACHE es Hes) as Hkeys.
split; [rewrite has_cache_update; apply has_cache_open |].
rewrite <- Hkeys in Hu.
destruct (put_all_lookup_bound es (cache_of CACHE_NAME (open_cache CACHE_NAME cs)) u Hu)
  as (r & Hr & Hin).
exists r. split; [exact (fetch_all_responses net PRECACHE es Hes u r Hin) |].
split.
- rewrite cache_of_update_same by apply has_cache_open. exact Hr.
- intros Honly. rewrite storage_match_update.
  + exact Hr.
  + apply only_in_cache_open, Honly.
  + apply has_cache_open.
  + rewrite Hr. eauto.
Qed.

(** X6. After a fulfilled installation every manifest URL is served from
    the cache: a GET request for it that is not a navigation gets a
    response without any network request, so also when the network is
    down; and when no older cache holds the URL, the response is the one
    fetched at installation. *)
Theorem precached_assets_need_no_network net cs net' req :
  fst (dispatch_install net cs) = Fulfilled tt ->
  In (url req) PRECACHE ->
  method req = "GET" ->
  mode req <> "navigate" ->
  let installed := storage (snd (dispatch_install net cs)) in
  (exists r, fst (dispatch_fetch net' installed req) = Fulfilled (Some r))
  /\ fetched (trace (snd (dispatch_fetch net' installed req))) = []
  /\ (only_in_cache CACHE_NAME (url req) cs ->
      forall r, net (request_of_url (url req)) = NetworkResponse r ->
                fst (dispatch_fetch net' installed req) = Fulfilled (Some r)).
Proof.
intros Hok Hu Hget Hmode installed. subst installed.
destruct (installed_entry net cs (url req) Hok Hu) as (Hhas & r & Hnet & Hr & Honly).
assert (Hsome : is_Some (cache_of CACHE_NAME (storage (snd (dispatch_install net cs)))
                         !! url req)) by (rewrite Hr; eauto).
destruct (storage_match_of_cache CACHE_NAME _ (url req) Hhas Hsome) as [hit Hhit].
rewrite <- storage_match_get in Hhit by exact Hget.
rewrite dispatch_fetch_asset by exact Hmode. rewrite Hhit. cbn.
split; [eauto |]. split; [reflexivity |].
intros Hno r' Hr'. rewrite storage_match_get in Hhit by exact Hget.
rewrite (Honly Hno) in Hhit. congruence.
Qed.

(** X7. Failed navigations all get the same page: after a fulfilled
    installation, when no older cache holds /static/offline.html, a
    navigation whose live fetch rejects is served the offline page fetched
    at installation, whatever URL was requested; in particular the
    precached root page "/" is not served for an offline navigation to
    "/". *)
Theorem offline_navigation_serves_installed_page net cs net' req page :
  fst (dispatch_install net cs) = Fulfilled tt ->
  only_in_cache CACHE_NAME OFFLINE_URL cs ->
  net (request_of_url OFFLINE_URL) = NetworkResponse page ->
  mode req = "navigate" ->
  net' req = NetworkError ->
  fst (dispatch_fetch net' (storage (snd (dispatch_install net cs))) req)
  = Fulfilled (Some page).
Proof.
intros Hok Honly Hpage Hmode Hfail.
assert (Hin : In OFFLINE_URL PRECACHE) by (cbn; tauto).
destruct (installed_entry net cs OFFLINE_URL Hok Hin) as (_ & r & Hnet & _ & Hmatch).
rewrite dispatch_fetch_navigate by exact Hmode. rewrite Hfail. cbn [fst].
rewrite (Hmatch Honly). congruence.
Qed.

(** X8. The cache answers GET requests only: a request that is neither a
    navigation nor a GET always goes to the network, whatever the caches
    hold for its URL, and is served the outcome of that fetch. *)
Theorem non_get_requests_bypass_cache net cs req :
  mode req <> "navigate" ->
  method req <> "GET" ->
  fetched (trace (snd (dispatch_fetch net cs req))) = [req]
  /\ fst (dispatch_fetch net cs req)
     = match net req with
       | NetworkResponse r => Fulfilled (Some r)
       | NetworkError => Rejected "TypeError"
       end.
Proof.
intros Hmode Hmeth.
rewrite dispatch_fetch_asset by exact Hmode.
rewrite (storage_match_not_get cs req Hmeth). split; reflexivity.
Qed.

(** X9. A fetch event costs at most one network request, and that request
    is the intercepted one: the listener never retries, and never asks the
    network for another URL (the offline page comes from the cache only). *)
Theorem fetch_event_fetches_only_the_request net cs req :
  fetched (trace (snd (dispatch_fetch net cs req))) = []
  \/ fetched (trace (snd (dispatch_fetch net cs req))) = [req].
Proof.
destruct (String.eqb_spec (mode req) "navigate") as [E | NE].
- rewrite (dispatch_fetch_navigate net cs req E).
  destruct (net req); right; reflexivity.
- rewrite (dispatch_fetch_asset net cs req NE).
  destruct (storage_match cs req); [left | right]; reflexivity.
Qed.

End InstalledFetch.

Section MoreSWScenarios.
Import SW.

Lemma install_refreshes_manifest_entries_witness :
  fst (dispatch_install online installed) = Fulfilled tt
  /\ cache_of CACHE_NAME (storage (snd (dispatch_install online installed)))
     !! OFFLINE_URL = Some offline_page.
Proof.
assert (Hok : fst (dispatch_install online installed) = Fulfilled tt) by reflexivity.
split; [exact Hok |].
destruct (install_refreshes_manifest_entries online installed Hok) as (Hfresh & _).
destruct (Hfresh OFFLINE_URL) as (r & Hr & Hentry).
- simpl. tauto.
- rewrite Hentry. f_equal. vm_compute in Hr. injection Hr as <-. reflexivity.
Defined.

Lemma events_never_remove_entries_witness :
  has_cache "undo-cache-v0" old_storage = true
  /\ is_Some (cache_of "undo-cache-v0"
                (storage_after_events old_storage
                   [OnInstall online; OnActivate online; OnFetch offline page_load;
                    OnInstall icon_missing])
              !! "/legacy.html").
Proof.
assert (Hhas : has_cache "undo-cache-v0" old_storage = true) by reflexivity.
split; [exact Hhas |].
destruct (events_never_remove_entries old_storage
            [OnInstall online; OnActivate online; OnFetch offline page_load;
             OnInstall icon_missing] "undo-cache-v0") as (_ & Hkeep).
apply Hkeep. vm_compute. eauto.
Defined.

Lemma offline_support_survives_events_witness :
  fst (dispatch_install online []) = Fulfilled tt
  /\ mode page_load = "navigate"
  /\ offline page_load = NetworkError
  /\ exists page,
       fst (dispatch_fetch offline
              (storage_after_events installed [OnActivate online; OnInstall offline])
              page_load)
       = Fulfilled (Some page).
Proof.
assert (Hok : fst (dispatch_install online []) = Fulfilled tt) by reflexivity.
split; [exact Hok |]. split; [reflexivity |]. split; [reflexivity |].
exact (offline_support_survives_events online []
         [OnActivate online; OnInstall offline] offline page_load
         Hok eq_refl eq_refl).
Defined.

Lemma precached_assets_need_no_network_witness :
  fst (dispatch_install online []) = Fulfilled tt
  /\ In (url stylesheet) PRECACHE
  /\ method stylesheet = "GET"
  /\ mode stylesheet <> "navigate"
  /\ fetched (trace (snd (dispatch_fetch offline installed stylesheet))) = [].
Proof.
assert (Hok : fst (dispatch_install online []) = Fulfilled tt) by reflexivity.
assert (Hin : In (url stylesheet) PRECACHE) by (simpl; tauto).
assert (Hmode : mode stylesheet <> "navigate") by (simpl; discriminate).
split; [exact Hok |]. split; [exact Hin |]. split; [reflexivity |].
split; [exact Hmode |].
destruct (precached_assets_need_no_network online [] offline stylesheet
            Hok Hin eq_refl Hmode) as (_ & Hnone & _).
exact Hnone.
Defined.

Lemma offline_navigation_serves_installed_page_witness :
  fst (dispatch_install online []) = Fulfilled tt
  /\ only_in_cache CACHE_NAME OFFLINE_URL []
  /\ online (request_of_url OFFLINE_URL) = NetworkResponse offline_page
  /\ mode root_load = "navigate"
  /\ offline root_load = NetworkError
  /\ fst (dispatch_fetch offline installed root_load) = Fulfilled (Some offline_page).
Proof.
assert (Hok : fst (dispatch_install online []) = Fulfilled tt) by reflexivity.
assert (Honly : only_in_cache CACHE_NAME OFFLINE_URL [])
  by (intros n c Hin; destruct Hin).
split; [exact Hok |]. split; [exact Honly |].
split; [reflexivity |]. split; [reflexivity |]. split; [reflexivity |].
exact (offline_navigation_serves_installed_page online [] offline root_load
         offline_page Hok Honly eq_refl eq_refl eq_refl).
Defined.

Lemma non_get_requests_bypass_cache_witness :
  mode post_to_root <> "navigate"
  /\ method post_to_root <> "GET"
  /\ fst (dispatch_fetch offline installed post_to_root) = Rejected "TypeError".
Proof.
assert (Hmode : mode post_to_root <> "navigate") by (simpl; discriminate).
assert (Hmeth : method post_to_root <> "GET") by (simpl; discriminate).
split; [exact Hmode |]. split; [exact Hmeth |].
destruct (non_get_requests_bypass_cache offline installed post_to_root Hmode Hmeth)
  as (_ & Hserved).
exact Hserved.
Defined.

End MoreSWScenarios.

(** ** Further properties of static/swipe.js *)

Section AngleShape.
Import Swipe.

(** X10. The angle test looks at the size of the displacement only, not
    at its direction, and it is monotone: a displacement that passes
    still passes when it gets longer sideways or shorter vertically. *)
Theorem angleOK_symmetric_and_monotone dx dy :
  angleOK (- dx) dy = angleOK dx dy
  /\ angleOK dx (- dy) = angleOK dx dy
  /\ (forall dx' dy',
        angleOK dx dy = true ->
        Z.abs dx <= Z.abs dx' -> Z.abs dy' <= Z.abs dy ->
        angleOK dx' dy' = true).
Proof.
unfold angleOK, atan2_deg_le_max. rewrite !Z.abs_opp.
split; [reflexivity |]. split; [reflexivity |].
intros dx' dy' Hok Hx Hy.
destruct (Z.eqb_spec (Z.abs dx) 0) as [E | NE]; [discriminate |].
destruct (Z.eqb_spec (Z.abs dx') 0) as [E' | NE']; [lia |].
apply Z.leb_le in Hok. apply Z.leb_le. nia.
Qed.

(** X11. In whole pixels: a displacement with a horizontal part whose
    vertical part is at most 4/7 of it passes the angle test, and every
    displacement that passes has a vertical part of at most 3/5 of its
    horizontal part; a purely vertical displacement never passes. *)
Theorem angleOK_pixel_bounds dx dy :
  (dx <> 0 -> 7 * Z.abs dy <= 4 * Z.abs dx -> angleOK dx dy = true)
  /\ (angleOK dx dy = true -> dx <> 0 /\ 5 * Z.abs dy <= 3 * Z.abs dx)
  /\ angleOK 0 dy = false.
Proof.
unfold angleOK, atan2_deg_le_max.
split; [| split].
- intros Hdx Hb. destruct (Z.eqb_spec (Z.abs dx) 0) as [E | NE]; [lia |].
  apply Z.leb_le. nia.
- destruct (Z.eqb_spec (Z.abs dx) 0) as [E | NE]; [discriminate |].
  intros Hok. apply Z.leb_le in Hok. split; [lia | nia].
- reflexivity.
Qed.

End AngleShape.

Section TouchRuns.
Import Swipe.

Variable url_pathname : string -> string -> Completion string.
Variable origin : string.
Variable location_href : string.
Variable nav_hrefs : list string.

Local Abbreviation tabs := (Swipe.tabs origin nav_hrefs).
Local Abbreviation nextTab := (Swipe.nextTab url_pathname origin location_href nav_hrefs).
Local Abbreviation prevTab := (Swipe.prevTab url_pathname origin location_href nav_hrefs).
Local Abbreviation touchend := (Swipe.touchend url_pathname origin location_href nav_hrefs).
Local Abbreviation handle := (Swipe.handle url_pathname origin location_href nav_hrefs).
Local Abbreviation run := (Swipe.run url_pathname origin location_href nav_hrefs).

Lemma goto_some v u : goto v = Some u -> v = Some u /\ u <> "".
Proof.
unfold goto, truthy. destruct v as [t |]; [| discriminate].
destruct (String.eqb_spec t ""); cbn; [discriminate |].
intros H. injection H as <-. split; [reflexivity | assumption].
Qed.

Lemma array_get_in (k : Z) u : array_get tabs k = Some u -> In u tabs.
Proof.
unfold array_get. destruct (k <? 0); [discriminate |].
intros H. apply list_elem_of_In, list_elem_of_lookup. eauto.
Qed.

Lemma touchend_target x y s u :
  touchend x y s = Some u -> In u tabs /\ u <> "".
Proof.
unfold Swipe.touchend, Swipe.nextTab, Swipe.prevTab.
repeat match goal with
       | |- context [if ?b then _ else _] => destruct b
       end; try discriminate;
  intros H; apply goto_some in H; destruct H as [H Hne];
  (split; [exact (array_get_in _ _ H) | exact Hne]).
Qed.

Lemma run_app s a b :
  run s (a ++ b)
  = (fst (run (fst (run s a)) b), snd (run s a) ++ snd (run (fst (run s a)) b)).
Proof.
revert s. induction a as [| e a IH]; intros s; cbn [app Swipe.run].
- cbn. destruct (run s b). reflexivity.
- destruct (handle s e) as [s1 nav]. rewrite IH.
  destruct (run s1 a) as [s2 navs]. cbn [fst snd].
  destruct nav; reflexivity.
Qed.

(** X12. The script navigates to tabs only: whatever touch events arrive,
    in whatever order, every URL it hands to window.location.assign is a
    non-empty member of the tab list. *)
Theorem navigations_stay_in_tab_list s es u :
  In u (snd (run s es)) -> In u tabs /\ u <> "".
Proof.
revert s. induction es as [| e rest IH]; intros s; cbn [Swipe.run].
- intros [].
- destruct (handle s e) as [s1 nav] eqn:He.
  destruct (run s1 rest) as [s2 navs] eqn:Hr. cbn [snd].
  assert (Hrest : In u navs -> In u tabs /\ u <> "").
  { intros Hin. apply (IH s1). rewrite Hr. exact Hin. }
  destruct nav as [v |]; [| exact Hrest].
  intros [<- | Hin]; [| exact (Hrest Hin)].
  destruct e as [target x y | | x y]; cbn in He; try discriminate.
  injection He as _ Hend. exact (touchend_target x y s v Hend).
Qed.

(** X13. One navigation at most per touch end: a run of touch events
    performs no more navigations than it contains touch ends, so touch
    starts and touch moves alone never navigate. *)
Theorem navigations_bounded_by_touch_ends s es :
  (length (snd (run s es)) <= touch_ends es)%nat.
Proof.
revert s. induction es as [| e rest IH]; intros s; cbn [Swipe.run touch_ends].
- cbn. lia.
- destruct (handle s e) as [s1 nav] eqn:He.
  pose proof (IH s1) as Hle.
  destruct (run s1 rest) as [s2 navs]. cbn [snd] in *.
  destruct e as [target x y | | x y]; cbn in He; injection He as <- <-;
    try exact Hle.
  destruct (touchend x y s); cbn [length]; lia.
Qed.

(** X14. A touch start wipes the slate: what a touch sequence does is the
    same after any earlier touch events as on a fresh page, so the
    navigations of a history followed by a touch sequence are those of the
    history followed by those of the sequence on its own. *)
Theorem touch_sequence_forgets_history s pre target x0 y0 moves x1 y1 :
  snd (run s (pre ++ touch_sequence target x0 y0 moves x1 y1))
  = snd (run s pre) ++ snd (run initial (touch_sequence target x0 y0 moves x1 y1)).
Proof.
rewrite run_app. cbn [snd].
rewrite !run_touch_sequence. reflexivity.
Qed.

(** X15. A touch end does not reset the gesture: a second touch end
    without a new touch start (a second finger lifting) is judged against
    the same start point and the same flags, exactly as if it had ended
    the sequence itself, so it can navigate once more. *)
Theorem second_touch_end_reuses_the_start s target x0 y0 moves x1 y1 x2 y2 :
  snd (run s (touch_sequence target x0 y0 moves x1 y1 ++ [TouchEnd x2 y2]))
  = snd (run s (touch_sequence target x0 y0 moves x1 y1))
    ++ snd (run s (touch_sequence target x0 y0 moves x2 y2)).
Proof.
rewrite !run_touch_sequence.
unfold touch_sequence. cbn [app Swipe.run Swipe.handle].
rewrite <- app_assoc. cbn [app]. rewrite run_moves. cbn.
destruct (touchend x1 y1 _); destruct (touchend x2 y2 _); reflexivity.
Qed.

(** X16. Only the displacement counts: moving the whole gesture elsewhere
    on the screen, or reporting more or fewer move events as long as there
    is at least one, changes nothing about what the sequence does. *)
Theorem swipe_depends_on_displacement_only s s' target x0 y0 x1 y1 a b
    (moves moves' : nat) :
  (moves =? 0)%nat = (moves' =? 0)%nat ->
  snd (run s' (touch_sequence target (x0 + a) (y0 + b) moves' (x1 + a) (y1 + b)))
  = snd (run s (touch_sequence target x0 y0 moves x1 y1)).
Proof.
intros Hm. rewrite !run_touch_sequence. unfold Swipe.touchend.
cbn [ignore moved startX startY]. rewrite Hm.
replace (x1 + a - (x0 + a)) with (x1 - x0) by lia.
replace (y1 + b - (y0 + b)) with (y1 - y0) by lia.
reflexivity.
Qed.

(** X17. The four refusals hold on every page: whatever the tab list and
    the current location, a touch sequence that starts inside an element
    matched by the selector of isFormEl (an input, textarea, select,
    button or anchor, or an element with contenteditable="true"), or never
    moves, or goes less than 60 pixels sideways, or is steeper than
    30 degrees (3 dy^2 > dx^2) performs no navigation. *)
Theorem refused_swipes_never_navigate s target x0 y0 (moves : nat) x1 y1 :
  starts_inside_form_element target
  \/ moves = 0%nat
  \/ Z.abs (x1 - x0) < SWIPE_THRESHOLD
  \/ (x1 - x0) * (x1 - x0) < 3 * ((y1 - y0) * (y1 - y0)) ->
  snd (run s (touch_sequence target x0 y0 moves x1 y1)) = [].
Proof.
intros Hrefused. rewrite run_touch_sequence. unfold Swipe.touchend.
cbn [ignore moved startX startY].
destruct (isFormEl target) as [e |] eqn:Hform; cbn [orb]; [reflexivity |].
destruct (Nat.eqb_spec moves 0) as [Hz | Hnz]; cbn [negb orb]; [reflexivity |].
destruct (Z.ltb_spec (Z.abs (x1 - x0)) SWIPE_THRESHOLD) as [Hs | Hl]; [reflexivity |].
destruct (angleOK (x1 - x0) (y1 - y0)) eqn:Hang; cbn [negb]; [| reflexivity].
exfalso. destruct Hrefused as [Hin | [Hm | [Hs | Hsteep]]].
- apply isFormEl_none_iff in Hform. exact (Hform Hin).
- exact (Hnz Hm).
- lia.
- unfold angleOK, atan2_deg_le_max in Hang.
  destruct (Z.abs (x1 - x0) =? 0); [discriminate |].
  apply Z.leb_le in Hang. nia.
Qed.

End TouchRuns.

Section TabOrder.
Import Swipe.

Variable url_pathname : string -> string -> Completion string.
Variable origin : string.
Variable nav_hrefs : list string.

Local Abbreviation tabs := (Swipe.tabs origin nav_hrefs).
Local Abbreviation tabs_length := (Swipe.tabs_length origin nav_hrefs).
Local Abbreviation normalizePath := (Swipe.normalizePath url_pathname origin).
Local Abbreviation same_path := (Swipe.same_path url_pathname origin).
Local Abbreviation tabIndexOf := (Swipe.tabIndexOf url_pathname origin nav_hrefs).
Local Abbreviation path_in_tabs := (Swipe.path_in_tabs url_pathname origin nav_hrefs).
Local Abbreviation nextTab loc := (Swipe.nextTab url_pathname origin loc nav_hrefs).
Local Abbreviation prevTab loc := (Swipe.prevTab url_pathname origin loc nav_hrefs).

(** The lookup of a parsed, non-empty path. *)
Lemma tabIndexOf_path href path :
  normalizePath href = Some path -> path <> "" ->
  tabIndexOf href = findIndex (same_path path) tabs.
Proof.
intros Hp Hne. unfold Swipe.tabIndexOf. rewrite Hp. cbn.
destruct (String.eqb_spec path ""); [contradiction | reflexivity].
Qed.

(** X18. tabIndexOf finds a URL exactly when it parses to a non-empty path
    that some tab has too, and then answers the index of the first such
    tab: the tab at the answered index has the path of the URL, no tab
    before it has, so the answer is at most the index of any tab with
    that path, and it is the index of a tab with the path before which no
    tab has it.  A URL with an empty path is never found, even if a tab
    has an empty path as well. *)
Theorem tabIndexOf_finds_first_tab_with_path href :
  (0 <= tabIndexOf href
   <-> exists path, normalizePath href = Some path /\ path <> ""
                    /\ path_in_tabs href = true)
  /\ (forall (j : nat) t path,
        normalizePath href = Some path -> path <> "" ->
        tabs !! j = Some t -> url_pathname t origin = Normal path ->
        0 <= tabIndexOf href <= Z.of_nat j)
  /\ (normalizePath href = Some "" -> tabIndexOf href = -1)
  /\ (0 <= tabIndexOf href ->
      exists t path,
        tabs !! Z.to_nat (tabIndexOf href) = Some t
        /\ normalizePath href = Some path
        /\ url_pathname t origin = Normal path
        /\ forall (j : nat) t',
             Z.of_nat j < tabIndexOf href -> tabs !! j = Some t' ->
             url_pathname t' origin <> Normal path)
  /\ (forall (i : nat) t path,
        normalizePath href = Some path -> path <> "" ->
        tabs !! i = Some t -> url_pathname t origin = Normal path ->
        (forall (j : nat) t', (j < i)%nat -> tabs !! j = Some t' ->
           url_pathname t' origin <> Normal path) ->
        tabIndexOf href = Z.of_nat i).
Proof.
split; [| split; [| split; [| split]]].
- split.
  + intros Hi.
    destruct (tabIndexOf_cases url_pathname origin nav_hrefs href)
      as [E | (k & t & path & _ & Ht & Hp & Hm & _)]; [lia |].
    exists path. split; [exact Hp |]. split.
    * intros ->. unfold Swipe.tabIndexOf in Hi. rewrite Hp in Hi. cbn in Hi. lia.
    * apply tabIndexOf_found. exact Hi.
  + intros (path & Hp & Hne & Hin).
    rewrite (tabIndexOf_path href path Hp Hne).
    unfold Swipe.path_in_tabs in Hin. rewrite Hp in Hin.
    apply existsb_exists in Hin. destruct Hin as (t & Ht & Hm).
    unfold findIndex.
    destruct (findIndex_from_cases (same_path path) tabs 0)
      as [[_ Hall] | (k & x & -> & _)]; [| lia].
    rewrite (Hall t Ht) in Hm. discriminate.
- intros j t path Hp Hne Ht Hm.
  rewrite (tabIndexOf_path href path Hp Hne). unfold findIndex.
  assert (Hmatch : same_path path t = true) by (apply same_path_true; exact Hm).
  destruct (findIndex_from_cases (same_path path) tabs 0)
    as [[_ Hall] | (k & x & -> & Hx & Hpx & Hbefore)].
  + rewrite (Hall t) in Hmatch; [discriminate |].
    apply list_elem_of_In, list_elem_of_lookup. eauto.
  + split; [lia |].
    destruct (Nat.le_gt_cases k j) as [Hle | Hgt]; [lia |].
    rewrite (Hbefore j t Hgt Ht) in Hmatch. discriminate.
- intros Hp. unfold Swipe.tabIndexOf. rewrite Hp. reflexivity.
- intros Hi.
  destruct (tabIndexOf_cases url_pathname origin nav_hrefs href)
    as [E | (k & t & path & Hk & Ht & Hp & Hm & Hbefore)]; [lia |].
  exists t, path. rewrite Hk, Nat2Z.id.
  split; [exact Ht |]. split; [exact Hp |]. split; [exact Hm |].
  intros j t' Hj. apply Hbefore. lia.
- intros i t path Hp Hne Ht Hm Hfirst.
  eapply tabIndexOf_first_tab; eauto.
Qed.

Hypothesis Hpages : distinct_pages url_pathname origin nav_hrefs.

(** On distinct pages every tab is found at its own index. *)
Lemma tabIndexOf_tab (j : nat) t :
  tabs !! j = Some t -> tabIndexOf t = Z.of_nat j.
Proof.
destruct Hpages as (_ & Hparse & Hinj). intros Ht.
assert (Hin : In t tabs) by (apply list_elem_of_In, list_elem_of_lookup; eauto).
destruct (Hparse t Hin) as (path & Hp & Hne).
assert (Hnp : normalizePath t = Some path)
  by (unfold Swipe.normalizePath; rewrite Hp; reflexivity).
rewrite (tabIndexOf_path t path Hnp Hne). unfold findIndex.
destruct (findIndex_from_cases (same_path path) tabs 0)
  as [[_ Hall] | (k & x & -> & Hx & Hpx & _)].
- assert (Hm : same_path path t = true) by (apply same_path_true; exact Hp).
  rewrite (Hall t Hin) in Hm. discriminate.
- apply same_path_true in Hpx.
  assert (Hnx : normalizePath x = Some path)
    by (unfold Swipe.normalizePath; rewrite Hpx; reflexivity).
  rewrite (Hinj k j x t Hx Ht); [lia |]. congruence.
Qed.

Lemma tab_lookup (k : Z) :
  0 <= k < tabs_length -> exists t, tabs !! Z.to_nat k = Some t /\ t <> "".
Proof.
intros Hk. destruct Hpages as (Hne & _ & _).
destruct (lookup_lt_is_Some_2 tabs (Z.to_nat k)) as [t Ht].
- unfold Swipe.tabs_length in Hk. lia.
- exists t. split; [exact Ht |]. apply Hne.
  apply list_elem_of_In, list_elem_of_lookup. eauto.
Qed.

(** From the tab at index j, the two neighbours. *)
Lemma nextTab_of_tab (j : nat) t :
  tabs !! j = Some t ->
  exists t', tabs !! Z.to_nat ((Z.of_nat j + 1) mod tabs_length) = Some t'
             /\ nextTab t = Some t'.
Proof.
intros Ht. pose proof (tabIndexOf_tab j t Ht) as Hi.
pose proof (lookup_lt_Some _ _ _ Ht) as Hlen.
destruct (tab_lookup ((Z.of_nat j + 1) mod tabs_length)) as (t' & Ht' & Hne).
{ apply Z.mod_pos_bound. unfold Swipe.tabs_length. lia. }
exists t'. split; [exact Ht' |].
rewrite (nextTab_found url_pathname origin t nav_hrefs) by lia.
rewrite Hi, Ht'. apply goto_nonempty, Hne.
Qed.

Lemma prevTab_of_tab (j : nat) t :
  tabs !! j = Some t ->
  exists t', tabs !! Z.to_nat ((Z.of_nat j - 1 + tabs_length) mod tabs_length) = Some t'
             /\ prevTab t = Some t'.
Proof.
intros Ht. pose proof (tabIndexOf_tab j t Ht) as Hi.
pose proof (lookup_lt_Some _ _ _ Ht) as Hlen.
destruct (tab_lookup ((Z.of_nat j - 1 + tabs_length) mod tabs_length))
  as (t' & Ht' & Hne).
{ apply Z.mod_pos_bound. unfold Swipe.tabs_length. lia. }
exists t'. split; [exact Ht' |].
rewrite (prevTab_found url_pathname origin t nav_hrefs) by lia.
rewrite Hi, Ht'. apply goto_nonempty, Hne.
Qed.

(** X19. Next and previous undo each other: on distinct pages, from any
    tab, the tab nextTab goes to has prevTab going back to where one
    started, and the tab prevTab goes to has nextTab going back. *)
Theorem next_and_prev_are_inverse t :
  In t tabs ->
  (exists t', nextTab t = Some t' /\ prevTab t' = Some t)
  /\ (exists t', prevTab t = Some t' /\ nextTab t' = Some t).
Proof.
intros Hin. apply list_elem_of_In, list_elem_of_lookup in Hin.
destruct Hin as [j Ht].
pose proof (lookup_lt_Some _ _ _ Ht) as Hlen.
assert (Hn : 0 < tabs_length) by (unfold Swipe.tabs_length; lia).
assert (Hj : 0 <= Z.of_nat j < tabs_length) by (unfold Swipe.tabs_length; lia).
split.
- destruct (nextTab_of_tab j t Ht) as (t' & Ht' & Hnext).
  exists t'. split; [exact Hnext |].
  destruct (prevTab_of_tab _ t' Ht') as (t'' & Ht'' & Hprev).
  rewrite Hprev. f_equal.
  rewrite Z2Nat.id in Ht'' by (apply Z.mod_pos_bound; exact Hn).
  replace (((Z.of_nat j + 1) mod tabs_length - 1 + tabs_length) mod tabs_length)
    with (Z.of_nat j) in Ht''.
  + rewrite Nat2Z.id in Ht''. congruence.
  + rewrite <- Z.add_sub_swap, <- Z.add_sub_assoc, Zplus_mod_idemp_l.
    replace (Z.of_nat j + 1 + (tabs_length - 1))
      with (Z.of_nat j + 1 * tabs_length) by lia.
    rewrite Z.mod_add by lia. symmetry. apply Z.mod_small. exact Hj.
- destruct (prevTab_of_tab j t Ht) as (t' & Ht' & Hprev).
  exists t'. split; [exact Hprev |].
  destruct (nextTab_of_tab _ t' Ht') as (t'' & Ht'' & Hnext).
  rewrite Hnext. f_equal.
  rewrite Z2Nat.id in Ht'' by (apply Z.mod_pos_bound; exact Hn).
  replace (((Z.of_nat j - 1 + tabs_length) mod tabs_length + 1) mod tabs_length)
    with (Z.of_nat j) in Ht''.
  + rewrite Nat2Z.id in Ht''. congruence.
  + rewrite Zplus_mod_idemp_l.
    replace (Z.of_nat j - 1 + tabs_length + 1)
      with (Z.of_nat j + 1 * tabs_length) by lia.
    rewrite Z.mod_add by lia. symmetry. apply Z.mod_small. exact Hj.
Qed.

(** After k swipes to the left from the tab at index j. *)
Lemma after_next_swipes_index (k j : nat) t :
  tabs !! j = Some t ->
  tabs !! Z.to_nat ((Z.of_nat j + Z.of_nat k) mod tabs_length)
  = Some (after_next_swipes url_pathname origin nav_hrefs k t).
Proof.
revert j t. induction k as [| k IH]; intros j t Ht.
- pose proof (lookup_lt_Some _ _ _ Ht) as Hlen.
  cbn [after_next_swipes]. rewrite Z.add_0_r, Z.mod_small, Nat2Z.id.
  + exact Ht.
  + unfold Swipe.tabs_length. lia.
- pose proof (lookup_lt_Some _ _ _ Ht) as Hlen.
  assert (Hn : 0 < tabs_length) by (unfold Swipe.tabs_length; lia).
  destruct (nextTab_of_tab j t Ht) as (t' & Ht' & Hnext).
  cbn [after_next_swipes]. rewrite Hnext.
  rewrite <- (IH _ t' Ht').
  rewrite Z2Nat.id by (apply Z.mod_pos_bound; exact Hn).
  rewrite Zplus_mod_idemp_l. f_equal. f_equal. f_equal. lia.
Qed.

(** X20. The tabs form one cycle: on distinct pages, k swipes to the left
    from the tab at index j end on the tab at index (j + k) mod n, so as
    many swipes as there are tabs bring every tab back to itself. *)
Theorem swipes_cycle_through_the_tabs (j : nat) t :
  tabs !! j = Some t ->
  (forall k : nat,
     tabs !! Z.to_nat ((Z.of_nat j + Z.of_nat k) mod tabs_length)
     = Some (after_next_swipes url_pathname origin nav_hrefs k t))
  /\ after_next_swipes url_pathname origin nav_hrefs (length tabs) t = t.
Proof.
intros Ht. split.
- intros k. apply after_next_swipes_index. exact Ht.
- pose proof (after_next_swipes_index (length tabs) j t Ht) as H.
  pose proof (lookup_lt_Some _ _ _ Ht) as Hlen.
  replace (Z.of_nat j + Z.of_nat (length tabs))
    with (Z.of_nat j + 1 * tabs_length) in H by (unfold Swipe.tabs_length; lia).
  rewrite Z.mod_add in H by (unfold Swipe.tabs_length; lia).
  rewrite Z.mod_small, Nat2Z.id in H by (unfold Swipe.tabs_length; lia).
  congruence.
Qed.

End TabOrder.

Section MoreSwipeScenarios.
Import Swipe.

Local Abbreviation page_tabs := (tabs example_origin []).
Local Abbreviation swipe_on href :=
  (run example_pathname example_origin href [] initial).

(** The three fallback pages are distinct pages. *)
Lemma fallback_pages_distinct : distinct_pages example_pathname example_origin [].
Proof.
split; [exact fallback_tabs_nonempty |]. split.
- intros t Hin. cbv [tabs map] in Hin. cbn [In] in Hin.
  destruct Hin as [<- | [<- | [<- | []]]]; eexists; (split; [reflexivity | discriminate]).
- intros j k t t' Hj Hk Hsame.
  destruct j as [| [| [| j]]]; destruct k as [| [| [| k]]];
    cbn in Hj, Hk; try discriminate; try reflexivity;
    injection Hj as <-; injection Hk as <-;
    vm_compute in Hsame; discriminate.
Qed.

Lemma navigations_stay_in_tab_list_witness :
  In "https://undo.example/profile"
     (snd (swipe_on "https://undo.example/reflections"
             (touch_sequence NoTarget 200 300 4 100 300)))
  /\ In "https://undo.example/profile" page_tabs.
Proof.
assert (Hnav : In "https://undo.example/profile"
                 (snd (swipe_on "https://undo.example/reflections"
                         (touch_sequence NoTarget 200 300 4 100 300))))
  by (simpl; tauto).
split; [exact Hnav |].
exact (proj1 (navigations_stay_in_tab_list
                example_pathname example_origin "https://undo.example/reflections" []
                initial _ _ Hnav)).
Defined.

Lemma swipe_depends_on_displacement_only_witness :
  (4 =? 0)%nat = (1 =? 0)%nat
  /\ snd (swipe_on "https://undo.example/" (touch_sequence NoTarget 20 40 1 100 50))
     = snd (swipe_on "https://undo.example/" (touch_sequence NoTarget 100 300 4 180 310)).
Proof.
split; [reflexivity |].
exact (swipe_depends_on_displacement_only
         example_pathname example_origin "https://undo.example/" []
         initial initial NoTarget 100 300 180 310 (-80) (-260) 4 1 eq_refl).
Defined.

Lemma refused_swipes_never_navigate_witness :
  (180 - 100) * (180 - 100) < 3 * ((350 - 300) * (350 - 300))
  /\ snd (swipe_on "https://undo.example/" (touch_sequence NoTarget 100 300 4 180 350))
     = [].
Proof.
assert (Hsteep : (180 - 100) * (180 - 100) < 3 * ((350 - 300) * (350 - 300)))
  by reflexivity.
split; [exact Hsteep |].
apply refused_swipes_never_navigate. do 3 right. exact Hsteep.
Defined.

Lemma next_and_prev_are_inverse_witness :
  distinct_pages example_pathname example_origin []
  /\ In "https://undo.example/profile" page_tabs
  /\ exists t',
       nextTab example_pathname example_origin "https://undo.example/profile" []
       = Some t'
       /\ prevTab example_pathname example_origin t' []
          = Some "https://undo.example/profile".
Proof.
assert (Hin : In "https://undo.example/profile" page_tabs) by (simpl; tauto).
split; [exact fallback_pages_distinct |]. split; [exact Hin |].
exact (proj1 (next_and_prev_are_inverse
                example_pathname example_origin [] fallback_pages_distinct
                "https://undo.example/profile" Hin)).
Defined.

Lemma swipes_cycle_through_the_tabs_witness :
  distinct_pages example_pathname example_origin []
  /\ page_tabs !! 1%nat = Some "https://undo.example/reflections"
  /\ after_next_swipes example_pathname example_origin [] (length page_tabs)
       "https://undo.example/reflections"
     = "https://undo.example/reflections".
Proof.
assert (Ht : page_tabs !! 1%nat = Some "https://undo.example/reflections")
  by reflexivity.
split; [exact fallback_pages_distinct |]. split; [exact Ht |].
exact (proj2 (swipes_cycle_through_the_tabs
                example_pathname example_origin [] fallback_pages_distinct
                1%nat "https://undo.example/reflections" Ht)).
Defined.

(** Two fingers lifting after one swipe to the left: two navigations. *)
Example two_touch_ends_navigate_twice :
  snd (swipe_on "https://undo.example/reflections"
         (touch_sequence NoTarget 200 300 4 100 300 ++ [TouchEnd 90 305]))
  = ["https://undo.example/profile"; "https://undo.example/profile"].
Proof. reflexivity. Qed.

End MoreSwipeScenarios.
